(** * Tech Innovations Dashboard: the filter, category and start-up pipeline

    A shallow embedding of [src/index.tsx].  The file has three parts:

    - [JsString]: the string built-ins the program calls ([toLowerCase],
      [trim], [includes]);
    - the typed pipeline over [Innovation], as the TypeScript interface
      declares it: the filter of [filterInnovations] and the category list
      of [setupFilters];
    - the page at run time: the module-level store [allInnovations], the
      DOM surfaces the script writes, [run] with its [try]/[catch], and the
      event listeners it registers. *)

From Stdlib Require Import Ascii NArith.
From stdpp Require Import base option list strings sorting.

(** ** JavaScript string built-ins

    A string is a sequence of code units.  The model takes the code units
    below 256 (ASCII and the Latin-1 supplement), one [ascii] each; on that
    range [toLowerCase] and [trim] are the functions below. *)

Module JsString.

(** [String.prototype.toLowerCase] on one code unit: A-Z, and the
    Latin-1 capitals U+00C0..U+00DE except the multiplication sign
    U+00D7, move up by 32; every other unit is its own lower case. *)
Definition lowerUnit (a : ascii) : ascii :=
  let n := N_of_ascii a in
  if ((65 <=? n) && (n <=? 90)
      || (192 <=? n) && (n <=? 222) && negb (n =? 215))%N
  then ascii_of_N (n + 32) else a.

Fixpoint toLowerCase (s : string) : string :=
  match s with
  | EmptyString => EmptyString
  | String a s' => String (lowerUnit a) (toLowerCase s')
  end.

(** WhiteSpace and LineTerminator code units below 256: TAB, LF, VT, FF,
    CR, SP and NBSP. *)
Definition isWhiteSpace (a : ascii) : bool :=
  let n := N_of_ascii a in
  ((9 <=? n) && (n <=? 13) || (n =? 32) || (n =? 160))%N.

Fixpoint trimStart (s : string) : string :=
  match s with
  | EmptyString => EmptyString
  | String a s' => if isWhiteSpace a then trimStart s' else s
  end.

Fixpoint trimEnd (s : string) : string :=
  match s with
  | EmptyString => EmptyString
  | String a s' =>
      match trimEnd s' with
      | EmptyString => if isWhiteSpace a then EmptyString else String a EmptyString
      | t => String a t
      end
  end.

(** [String.prototype.trim] *)
Definition trim (s : string) : string := trimEnd (trimStart s).

(** [s.includes(search)]: [search] starts at some position of [s]. *)
Fixpoint includes (s search : string) : bool :=
  String.prefix search s
  || match s with
     | EmptyString => false
     | String _ s' => includes s' search
     end.

(** ToBoolean on a string: only the empty string is falsy. *)
Definition truthy (s : string) : bool := negb (String.eqb s "").

(** [t] occurs in [s] as a contiguous run of code units. *)
Definition Substring (t s : string) : Prop :=
  exists pre post, s = pre +:+ t +:+ post.

Definition AllWhiteSpace (s : string) : Prop :=
  Forall (fun a => isWhiteSpace a = true) (String.list_ascii_of_string s).

End JsString.

Import JsString.

(** ** The record and the typed pipeline *)

(** [interface Innovation] *)
Record Innovation : Type := mkInnovation {
  name : string;
  description : string;
  category : string;
  imageQuery : string;
  learnMoreUrl : string;
  significance : string
}.

Global Instance Innovation_eq_dec : EqDecision Innovation.
Proof. solve_decision. Defined.

(** [const normalizedQuery = query.toLowerCase().trim()] *)
Definition normalizedQuery (query : string) : string :=
  trim (toLowerCase query).

(** [const activeCategory = category === 'all' ? null : category] *)
Definition activeCategory (category : string) : option string :=
  if String.eqb category "all" then None else Some category.

(** [name.toLowerCase().includes(q) || description.toLowerCase().includes(q)] *)
Definition matchesQuery (nq : string) (innovation : Innovation) : bool :=
  includes (toLowerCase (name innovation)) nq
  || includes (toLowerCase (description innovation)) nq.

(** [!activeCategory || innovation.category === activeCategory]:
    [!activeCategory] holds for [null] and for the empty string. *)
Definition matchesCategory (ac : option string) (innovation : Innovation) : bool :=
  match ac with
  | None => true
  | Some c => negb (truthy c) || String.eqb (category innovation) c
  end.

(** The callback of [allInnovations.filter]. *)
Definition keeps (nq : string) (ac : option string) (innovation : Innovation) : bool :=
  matchesQuery nq innovation && matchesCategory ac innovation.

(** [const filtered = allInnovations.filter(...)], lines 114-122, as a
    function of the query, the category and the catalog. *)
Definition filtered (query category : string) (allInnovations : list Innovation)
  : list Innovation :=
  let nq := normalizedQuery query in
  let ac := activeCategory category in
  List.filter (keeps nq ac) allInnovations.

(** [Array.from(new Set(xs))]: the distinct values in order of first
    insertion. *)
Fixpoint setToArray `{EqDecision A} (seen : list A) (xs : list A) : list A :=
  match xs with
  | [] => []
  | x :: xs' =>
      if decide (x ∈ seen) then setToArray seen xs'
      else x :: setToArray (x :: seen) xs'
  end.

Definition distinct `{EqDecision A} (xs : list A) : list A := setToArray [] xs.

(** [Array.from(new Set(innovations.map(i => i.category))).sort()]: the
    default comparison orders strings by code units.  [sort] works in place
    on the array [Array.from] has just made, never on the catalog. *)
Definition categories (innovations : list Innovation) : list string :=
  merge_sort String.le (distinct (category <$> innovations)).


(** ** The page at run time

    [JSON.parse] returns whatever the service sent: the annotation
    [Innovation[]] is erased.  The parsed value may be no array at all, an
    element may be [null], and a property may be absent or hold any JSON
    value.  Strings are, as above, sequences of code units below 256. *)

(** A JSON value that is not a string ([null], a boolean, a number, an
    array or an object), by what the script can observe of it: [ident]
    tells values apart for [===] and [Set] (equal primitives share it, every
    array and object has its own); [isTruthy] is its ToBoolean; [printed] is
    its ToString, [None] when the conversion throws (an object with an own
    [toString] property, which JSON cannot make callable). *)
Record Opaque : Type := mkOpaque {
  ident : nat;
  isTruthy : bool;
  printed : option string
}.

(** What reading a property yields. *)
Inductive Value : Type :=
| Absent                 (* no such property: [undefined] *)
| Text (s : string)      (* a string *)
| Other (o : Opaque).    (* any other JSON value *)

Global Instance Opaque_eq_dec : EqDecision Opaque.
Proof. solve_decision. Defined.

Global Instance Value_eq_dec : EqDecision Value.
Proof. solve_decision. Defined.

(** ToString, [None] when it throws. *)
Definition print (v : Value) : option string :=
  match v with
  | Absent => Some "undefined"
  | Text s => Some s
  | Other o => printed o
  end.

(** ToBoolean *)
Definition toBoolean (v : Value) : bool :=
  match v with
  | Absent => false
  | Text s => truthy s
  | Other o => isTruthy o
  end.

(** The string a value is, if it is one: only strings have
    [toLowerCase]. *)
Definition textOf (v : Value) : option string :=
  match v with
  | Text s => Some s
  | _ => None
  end.

(** [imageQuery] is the one property the script hands to
    [encodeURIComponent], which throws on a lone surrogate.  The strings
    above hold no surrogate; as the value of this property a string that
    holds code units of 256 or more is given by its 16-bit code units. *)
Inductive Query : Type :=
| Plain (v : Value)
| Utf16 (units : list N).

Global Instance Query_eq_dec : EqDecision Query.
Proof. solve_decision. Defined.

(** An object of the parsed array.  An element that is a number, a
    boolean, a string or an array has none of the six properties and is the
    object with six absent ones. *)
Record Item : Type := mkItem {
  nameProp : Value;
  descriptionProp : Value;
  categoryProp : Value;
  imageQueryProp : Query;
  learnMoreUrlProp : Value;
  significanceProp : Value
}.

Global Instance Item_eq_dec : EqDecision Item.
Proof. solve_decision. Defined.

(** A record that conforms to the interface, as an object. *)
Definition toItem (i : Innovation) : Item :=
  mkItem (Text (name i)) (Text (description i)) (Text (category i))
         (Plain (Text (imageQuery i))) (Text (learnMoreUrl i))
         (Text (significance i)).

(** All six properties are present. *)
Definition complete (o : Item) : Prop :=
  nameProp o <> Absent /\ descriptionProp o <> Absent /\
  categoryProp o <> Absent /\ imageQueryProp o <> Plain Absent /\
  learnMoreUrlProp o <> Absent /\ significanceProp o <> Absent.

(** A parsed value: an array, whose elements are objects or [null]
    ([None]), or a value that is not an array. *)
Inductive Stored : Type :=
| NotArray
| ArrayOf (els : list (option Item)).

Definition elements (v : Stored) : list (option Item) :=
  match v with
  | NotArray => []
  | ArrayOf els => els
  end.

(** An array of objects. *)
Definition records (items : list Item) : Stored := ArrayOf (Some <$> items).

(** [element.style.display]: not set by the script, ['none'] or ['block']. *)
Inductive Display : Type := CssDefault | DisplayNone | DisplayBlock.

Record Element : Type := mkElement {
  display : Display;
  textContent : string
}.

(** A [.filter-pill] button: its [data-category] attribute, whether it
    carries the class [active], and the category argument each of its click
    listeners passes to [filterInnovations], in registration order. *)
Record Pill : Type := mkPill {
  dataCategory : option string;
  active : bool;
  clickListeners : list Value
}.

(** [document.activeElement] *)
Inductive Focus : Type := SearchInput | OtherTextField | NoTextField.

Global Instance Focus_eq_dec : EqDecision Focus.
Proof. solve_decision. Defined.

(** The module-level store and the parts of the document the script reads
    and writes.  A card is represented by the record [createCard] was called
    with (the markup shows it, the click listener spotlights it);
    [spotlightContainer] is [None] for the static markup and [Some r] for the
    detail view of [r].  Scrolling and console output are left out. *)
Record Page : Type := mkPage {
  allInnovations : Stored;
  loader : Element;
  errorMessage : Element;
  noResultsMessage : Element;
  dashboard : list Item;
  categoryFilters : list Pill;
  spotlightContainer : option Item;
  searchValue : string;
  activeElement : Focus;
  inputListener : bool;
  keydownListener : bool
}.

Definition setAllInnovations (v : Stored) (p : Page) : Page :=
  mkPage v (loader p) (errorMessage p) (noResultsMessage p) (dashboard p)
    (categoryFilters p) (spotlightContainer p) (searchValue p)
    (activeElement p) (inputListener p) (keydownListener p).

Definition setLoader (v : Element) (p : Page) : Page :=
  mkPage (allInnovations p) v (errorMessage p) (noResultsMessage p) (dashboard p)
    (categoryFilters p) (spotlightContainer p) (searchValue p)
    (activeElement p) (inputListener p) (keydownListener p).

Definition setErrorMessage (v : Element) (p : Page) : Page :=
  mkPage (allInnovations p) (loader p) v (noResultsMessage p) (dashboard p)
    (categoryFilters p) (spotlightContainer p) (searchValue p)
    (activeElement p) (inputListener p) (keydownListener p).

Definition setNoResultsMessage (v : Element) (p : Page) : Page :=
  mkPage (allInnovations p) (loader p) (errorMessage p) v (dashboard p)
    (categoryFilters p) (spotlightContainer p) (searchValue p)
    (activeElement p) (inputListener p) (keydownListener p).

Definition setDashboard (v : list Item) (p : Page) : Page :=
  mkPage (allInnovations p) (loader p) (errorMessage p) (noResultsMessage p) v
    (categoryFilters p) (spotlightContainer p) (searchValue p)
    (activeElement p) (inputListener p) (keydownListener p).

Definition setCategoryFilters (v : list Pill) (p : Page) : Page :=
  mkPage (allInnovations p) (loader p) (errorMessage p) (noResultsMessage p)
    (dashboard p) v (spotlightContainer p) (searchValue p)
    (activeElement p) (inputListener p) (keydownListener p).

Definition setSpotlightContainer (v : option Item) (p : Page) : Page :=
  mkPage (allInnovations p) (loader p) (errorMessage p) (noResultsMessage p)
    (dashboard p) (categoryFilters p) v (searchValue p)
    (activeElement p) (inputListener p) (keydownListener p).

Definition setSearchValue (v : string) (p : Page) : Page :=
  mkPage (allInnovations p) (loader p) (errorMessage p) (noResultsMessage p)
    (dashboard p) (categoryFilters p) (spotlightContainer p) v
    (activeElement p) (inputListener p) (keydownListener p).

Definition setActiveElement (v : Focus) (p : Page) : Page :=
  mkPage (allInnovations p) (loader p) (errorMessage p) (noResultsMessage p)
    (dashboard p) (categoryFilters p) (spotlightContainer p) (searchValue p)
    v (inputListener p) (keydownListener p).

Definition setInputListener (v : bool) (p : Page) : Page :=
  mkPage (allInnovations p) (loader p) (errorMessage p) (noResultsMessage p)
    (dashboard p) (categoryFilters p) (spotlightContainer p) (searchValue p)
    (activeElement p) v (keydownListener p).

Definition setKeydownListener (v : bool) (p : Page) : Page :=
  mkPage (allInnovations p) (loader p) (errorMessage p) (noResultsMessage p)
    (dashboard p) (categoryFilters p) (spotlightContainer p) (searchValue p)
    (activeElement p) (inputListener p) v.

(** [element.style.display = d] and [element.textContent = t] *)
Definition withDisplay (d : Display) (e : Element) : Element :=
  mkElement d (textContent e).
Definition withText (t : string) (e : Element) : Element :=
  mkElement (display e) t.

(** How a statement completes: normally, or by a throw; either way with
    the page as the statements before it left it. *)
Inductive Completion : Type :=
| Normal (p : Page)
| Thrown (p : Page).

Definition andThen (c : Completion) (k : Page -> Completion) : Completion :=
  match c with
  | Normal p => k p
  | Thrown p => Thrown p
  end.

(** *** The image address of a card *)

(** The code units [encodeURIComponent] leaves as they are: letters,
    digits and [- _ . ! ~ * ' ( )]. *)
Definition unreserved (a : ascii) : bool :=
  let n := N_of_ascii a in
  ((65 <=? n) && (n <=? 90) || (97 <=? n) && (n <=? 122)
   || (48 <=? n) && (n <=? 57)
   || (n =? 45) || (n =? 95) || (n =? 46) || (n =? 33) || (n =? 126)
   || (n =? 42) || (n =? 39) || (n =? 40) || (n =? 41))%N.

Definition hexDigit (n : N) : ascii :=
  if (n <? 10)%N then ascii_of_N (48 + n) else ascii_of_N (55 + n).

(** One octet as [%XX], upper-case hexadecimal. *)
Definition percent (octet : N) : string :=
  String "%" (String (hexDigit (octet / 16))
                     (String (hexDigit (octet mod 16)) EmptyString)).

(** Every other code unit is written as the octets of its UTF-8 form: one
    octet below 128, two from 128 to 255. *)
Definition encodeUnit (a : ascii) : string :=
  let n := N_of_ascii a in
  if unreserved a then String a EmptyString
  else if (n <? 128)%N then percent n
  else percent (192 + n / 64) +:+ percent (128 + n mod 64).

(** [encodeURIComponent(s)] on a string of code units below 256, where it
    cannot throw. *)
Fixpoint encodeURIComponent (s : string) : string :=
  match s with
  | EmptyString => EmptyString
  | String a s' => encodeUnit a +:+ encodeURIComponent s'
  end.

(** On 16-bit code units: a high surrogate followed by a low one is one
    code point above 65535, any other surrogate is alone. *)
Definition isHighSurrogate (u : N) : bool := ((55296 <=? u) && (u <=? 56319))%N.
Definition isLowSurrogate (u : N) : bool := ((56320 <=? u) && (u <=? 57343))%N.

(** The octets of the UTF-8 form of a code point, each as [%XX]; an
    unreserved code unit stays as it is. *)
Definition encodeCodePoint (c : N) : string :=
  if (c <? 128)%N then
    if unreserved (ascii_of_N c) then String (ascii_of_N c) EmptyString
    else percent c
  else if (c <? 2048)%N then
    percent (192 + c / 64) +:+ percent (128 + c mod 64)
  else if (c <? 65536)%N then
    percent (224 + c / 4096) +:+ percent (128 + (c / 64) mod 64)
    +:+ percent (128 + c mod 64)
  else
    percent (240 + c / 262144) +:+ percent (128 + (c / 4096) mod 64)
    +:+ percent (128 + (c / 64) mod 64) +:+ percent (128 + c mod 64).

(** [encodeURIComponent] on a string given by its code units: [None] is
    the URIError on a lone surrogate. *)
Fixpoint encodeUnits (units : list N) : option string :=
  match units with
  | [] => Some EmptyString
  | u :: rest =>
      if isHighSurrogate u then
        match rest with
        | l :: rest' =>
            if isLowSurrogate l then
              e ← encodeUnits rest';
              Some (encodeCodePoint (65536 + (u - 55296) * 1024 + (l - 56320)) +:+ e)
            else None
        | [] => None
        end
      else if isLowSurrogate u then None
      else e ← encodeUnits rest; Some (encodeCodePoint u +:+ e)
  end.

(** The code units of a string of the kind above. *)
Definition codeUnits (s : string) : list N :=
  N_of_ascii <$> String.list_ascii_of_string s.

(** [encodeURIComponent(innovation.imageQuery)]: the argument is converted
    to a string first, so that an absent [imageQuery] is encoded as the text
    [undefined]; [None] when the conversion or the encoding throws. *)
Definition encodedQuery (q : Query) : option string :=
  match q with
  | Plain v => encodeURIComponent <$> print v
  | Utf16 units => encodeUnits units
  end.

(** [const specificImage] of [createCard], line 38. *)
Definition specificImage (innovation : Item) : option string :=
  e ← encodedQuery (imageQueryProp innovation);
  Some ("https://loremflickr.com/600/400/" +:+ e).

(** A code unit that can stand in an encoded component. *)
Definition urlSafe (a : ascii) : Prop := unreserved a = true \/ a = "%"%char.

Definition urlSafeb (a : ascii) : bool := unreserved a || Ascii.eqb a "%".




(** *** Rendering *)

(** [createCard(innovation)]: the card, or [None] when the call throws.
    Reading a property of [null] throws; so does the encoding of
    [imageQuery] (line 38) and the conversion to a string of the values the
    template prints: [name], [category], [description] and [learnMoreUrl]
    (lines 40-52). *)
Definition createCard (innovation : option Item) : option Item :=
  i ← innovation;
  _ ← specificImage i;
  _ ← print (nameProp i);
  _ ← print (categoryProp i);
  _ ← print (descriptionProp i);
  _ ← print (learnMoreUrlProp i);
  Some i.

(** [updateSpotlight(innovation)].  The argument is a value: reading a
    property of [undefined] or [null] ([None]) is a TypeError, and the
    template prints [category], [name], [significance] and [learnMoreUrl]
    before anything is written. *)
Definition updateSpotlight (innovation : option Item) (p : Page) : Completion :=
  match
    i ← innovation;
    _ ← print (categoryProp i);
    _ ← print (nameProp i);
    _ ← print (significanceProp i);
    _ ← print (learnMoreUrlProp i);
    Some i
  with
  | None => Thrown p
  | Some i => Normal (setSpotlightContainer (Some i) p)
  end.

(** The loop of [renderGrid]: one card after the other is made and
    appended; a throw leaves the cards appended so far. *)
Fixpoint appendCards (innovations : list (option Item)) (p : Page) : Completion :=
  match innovations with
  | [] => Normal p
  | innovation :: rest =>
      match createCard innovation with
      | None => Thrown p
      | Some card => appendCards rest (setDashboard (dashboard p ++ [card]) p)
      end
  end.

(** [renderGrid(innovations)]: the grid is emptied, then filled.  A value
    that is not an array has no [forEach]. *)
Definition renderGrid (innovations : Stored) (p : Page) : Completion :=
  let p := setDashboard [] p in
  match innovations with
  | NotArray => Thrown p
  | ArrayOf els => appendCards els p
  end.

(** [Array.prototype.map] with a callback that may throw. *)
Fixpoint mapArray {A B} (f : A -> option B) (xs : list A) : option (list B) :=
  match xs with
  | [] => Some []
  | x :: xs' =>
      y ← f x;
      ys ← mapArray f xs';
      Some (y :: ys)
  end.

(** The default comparison of [sort] compares the printed values by code
    units. *)
Definition sortKey (v : Value) : string := default "" (print v).

Fixpoint insertSorted (x : Value) (sorted : list Value) : list Value :=
  match sorted with
  | [] => [x]
  | y :: rest =>
      if String.leb (sortKey x) (sortKey y) then x :: y :: rest
      else y :: insertSorted x rest
  end.

(** A stable sort by [sortKey]: values that print the same keep their
    order. *)
Definition stableSort (xs : list Value) : list Value := foldr insertSorted [] xs.

Definition isAbsent (v : Value) : bool := bool_decide (v = Absent).

Definition canPrint (v : Value) : bool :=
  match print v with
  | Some _ => true
  | None => false
  end.

(** [Array.prototype.sort] without a comparison function: the values
    other than [undefined] in the order of their printed forms, then every
    [undefined].  Two or more values are compared, and the comparison throws
    when one of them cannot be printed; fewer are not compared at all. *)
Definition sortValues (xs : list Value) : option (list Value) :=
  let defined := List.filter (fun v => negb (isAbsent v)) xs in
  let undefineds := List.filter isAbsent xs in
  if decide (length defined <= 1)%nat then Some (defined ++ undefineds)
  else if forallb canPrint defined then Some (stableSort defined ++ undefineds)
  else None.

(** The button [setupFilters] creates for [cat], lines 89-97, or [None]
    when [textContent = cat] or [dataset.category = cat] throws:
    [dataset] stores the printed value. *)
Definition newPill (cat : Value) : option Pill :=
  label ← print cat;
  Some (mkPill (Some label) false [cat]).

(** The pill of a value that can be printed. *)
Definition pillOf (cat : Value) : Pill := mkPill (Some (sortKey cat)) false [cat].

Definition isAllPill (pill : Pill) : bool :=
  bool_decide (dataCategory pill = Some "all").

(** [isAllPill] on the attribute alone. *)
Definition isAllLabel (d : option string) : bool := bool_decide (d = Some "all").

(** The loop of lines 88-99: a throw leaves the pills appended so far. *)
Fixpoint appendPills (cats : list Value) (p : Page) : Completion :=
  match cats with
  | [] => Normal p
  | cat :: rest =>
      match newPill cat with
      | None => Thrown p
      | Some pill =>
          appendPills rest (setCategoryFilters (categoryFilters p ++ [pill]) p)
      end
  end.

(** [querySelector('[data-category="all"]')?.addEventListener('click', ...)]:
    the first match, if any, gets one more listener, which filters by
    ['all']. *)
Fixpoint listenOnAllPill (pills : list Pill) : list Pill :=
  match pills with
  | [] => []
  | pill :: rest =>
      if isAllPill pill
      then mkPill (dataCategory pill) (active pill)
                  (clickListeners pill ++ [Text "all"]) :: rest
      else pill :: listenOnAllPill rest
  end.

(** The category values line 82 sorts: [i => i.category] throws on a
    [null] element. *)
Definition categoryValues (els : list (option Item)) : option (list Value) :=
  mapArray (fun e : option Item => categoryProp <$> e) els.

(** [setupFilters(innovations)].  Line 82 throws, before anything is
    written, when the value has no [map], when an element is [null] and when
    [sort] throws. *)
Definition setupFilters (innovations : Stored) (p : Page) : Completion :=
  match innovations with
  | NotArray => Thrown p
  | ArrayOf els =>
      match cats ← categoryValues els; sortValues (distinct cats) with
      | None => Thrown p
      | Some categories =>
          let p := setCategoryFilters (List.filter isAllPill (categoryFilters p)) p in
          andThen (appendPills categories p)
            (fun p => Normal (setCategoryFilters
                                (listenOnAllPill (categoryFilters p)) p))
      end
  end.

(** *** The filter on the store *)

(** The callback of [allInnovations.filter] on an object: [None] when it
    throws.  [name] is read first and must be a string; [description] is
    read, and must be one, only when the name does not match.
    [!activeCategory] holds for every falsy value. *)
Definition keepsItem (nq : string) (ac : Value) (innovation : Item)
  : option bool :=
  n ← textOf (nameProp innovation);
  matchesQuery ←
    (if includes (toLowerCase n) nq then Some true
     else d ← textOf (descriptionProp innovation);
          Some (includes (toLowerCase d) nq));
  let matchesCategory :=
    negb (toBoolean ac) || bool_decide (categoryProp innovation = ac) in
  Some (matchesQuery && matchesCategory).

(** [Array.prototype.filter] with a callback that may throw: elements are
    visited in order and the first throw ends the call; reading [name] of a
    [null] element throws. *)
Fixpoint filterElements (f : Item -> option bool) (els : list (option Item))
  : option (list Item) :=
  match els with
  | [] => Some []
  | e :: rest =>
      i ← e;
      b ← f i;
      kept ← filterElements f rest;
      Some (if b : bool then i :: kept else kept)
  end.

(** [category === 'all' ? null : category]; [null] is falsy and is
    never compared, [Absent] stands for it. *)
Definition activeCategoryValue (category : Value) : Value :=
  if bool_decide (category = Text "all") then Absent else category.

(** Lines 114-122 on the store; a value that is not an array has no
    [filter]. *)
Definition filteredItems (query : string) (category : Value)
    (store : Stored) : option (list Item) :=
  match store with
  | NotArray => None
  | ArrayOf els =>
      filterElements
        (keepsItem (normalizedQuery query) (activeCategoryValue category)) els
  end.

Definition quote : string := String (ascii_of_N 34) EmptyString.

Definition noResultsText (query category : string) : string :=
  "No breakthroughs found for " +:+ quote +:+ query +:+ quote
  +:+ " in " +:+ category +:+ "...".

(** Lines 126-129: the display is set from the number of kept records,
    then the text is written; printing [category] for it can throw. *)
Definition showNoResults (query : string) (category : Value) (count : nat)
    (p : Page) : Completion :=
  let shown := if decide (count = 0) then DisplayBlock else DisplayNone in
  let p := setNoResultsMessage (withDisplay shown (noResultsMessage p)) p in
  match print category with
  | None => Thrown p
  | Some c =>
      Normal (setNoResultsMessage
                (withText (noResultsText query c) (noResultsMessage p)) p)
  end.

(** [filterInnovations(query, category)].  A throw in the callback leaves
    the page as it was; a throw in [renderGrid] leaves the grid as far as it
    got. *)
Definition filterInnovations (query : string) (category : Value)
    (p : Page) : Completion :=
  match filteredItems query category (allInnovations p) with
  | None => Thrown p
  | Some filtered =>
      andThen (renderGrid (records filtered) p)
              (showNoResults query category (length filtered))
  end.

(** *** Start-up *)

(** What the request and [JSON.parse] produce. *)
Inductive Acquisition : Type :=
| ServiceFailure                (* the client or [generateContent] throws *)
| NotJson                       (* [JSON.parse(response.text)] throws *)
| Parsed (data : Stored).       (* [JSON.parse] returns a value *)

Definition fixedMessage : string :=
  "We encountered a rift in the data stream. Please reload to try again.".

(** [allInnovations[0]]: [undefined] past the end, and [null] elements,
    are both [None]. *)
Definition firstElement (v : Stored) : option Item := mjoin (head (elements v)).

(** Lines 190-210: what follows once the store is written and the loader
    hidden. *)
Definition afterLoader (p : Page) : Completion :=
  andThen (setupFilters (allInnovations p) p) (fun p =>
  andThen (renderGrid (allInnovations p) p) (fun p =>
  andThen
    (if decide (0 < length (elements (allInnovations p)))
     then updateSpotlight (firstElement (allInnovations p)) p
     else Normal p)
    (fun p => Normal (setKeydownListener true (setInputListener true p))))).

(** The body of [try], lines 147-210. *)
Definition tryBlock (a : Acquisition) (p : Page) : Completion :=
  match a with
  | ServiceFailure => Thrown p
  | NotJson => Thrown p
  | Parsed data =>
      let p := setAllInnovations data p in
      let p := setLoader (withDisplay DisplayNone (loader p)) p in
      afterLoader p
  end.

(** The [catch] block, lines 212-219. *)
Definition catchBlock (p : Page) : Page :=
  let p := setLoader (withDisplay DisplayNone (loader p)) p in
  setErrorMessage (withText fixedMessage (withDisplay DisplayBlock (errorMessage p))) p.

(** [run()] *)
Definition run (a : Acquisition) (p : Page) : Page :=
  match tryBlock a p with
  | Normal p' => p'
  | Thrown p' => catchBlock p'
  end.

(** [run] took the [catch] branch. *)
Definition signalsError (a : Acquisition) (p : Page) : bool :=
  match tryBlock a p with
  | Normal _ => false
  | Thrown _ => true
  end.

(** *** Listeners *)

(** The ['input'] listener of the search field, lines 199-202:
    [activeCat?.dataset.category || 'all'] of the first active pill. *)
Definition activePillCategory (pills : list Pill) : string :=
  match List.find active pills with
  | Some pill =>
      match dataCategory pill with
      | Some c => if truthy c then c else "all"
      | None => "all"
      end
  | None => "all"
  end.

Definition onInput (p : Page) : Completion :=
  filterInnovations (searchValue p)
    (Text (activePillCategory (categoryFilters p))) p.

Definition deactivate (pill : Pill) : Pill :=
  mkPill (dataCategory pill) false (clickListeners pill).
Definition activate (pill : Pill) : Pill :=
  mkPill (dataCategory pill) true (clickListeners pill).

(** A click listener of the pill at position [k], lines 93-97 and 103-107:
    every pill loses [active], this one gains it, and the grid is filtered
    with the listener's category. *)
Definition onPillClick (k : nat) (cat : Value) (p : Page) : Completion :=
  let pills := alter activate k (deactivate <$> categoryFilters p) in
  filterInnovations (searchValue p) cat (setCategoryFilters pills p).

(** A ['keydown'] event: the key, and the element it is dispatched at. *)
Record KeyboardEvent : Type := mkKeyboardEvent {
  key : string;
  target : Focus
}.

(** A text field: the search field or another one. *)
Definition isTextField (f : Focus) : bool :=
  match f with
  | SearchInput | OtherTextField => true
  | NoTextField => false
  end.

(** The ['keydown'] listener of the window, lines 205-210; the second
    component is [defaultPrevented]. *)
Definition onKeydown (e : KeyboardEvent) (p : Page) : Page * bool :=
  if bool_decide (key e = "/") && negb (bool_decide (activeElement p = SearchInput))
  then (setActiveElement SearchInput p, true)
  else (p, false).

(** An uncaught throw ends the listener; the page stays as it was at the
    throw. *)
Definition settle (c : Completion) : Page :=
  match c with
  | Normal p => p
  | Thrown p => p
  end.

Inductive Event : Type :=
| Input (text : string)     (* the search field is edited to [text] *)
| ClickPill (k : nat)       (* a click on the pill at position [k] *)
| ClickCard (k : nat)       (* a click on the card at position [k] *)
| KeyDown (k : string)      (* a key goes down; the target is the focused element *)
| MoveFocus (f : Focus).    (* the user moves the focus *)

Definition dispatch (p : Page) (e : Event) : Page :=
  match e with
  | Input text =>
      let p := setSearchValue text p in
      if inputListener p then settle (onInput p) else p
  | ClickPill k =>
      match categoryFilters p !! k with
      | Some pill =>
          foldl (fun p cat => settle (onPillClick k cat p)) p (clickListeners pill)
      | None => p
      end
  | ClickCard k =>
      match dashboard p !! k with
      | Some i => settle (updateSpotlight (Some i) p)
      | None => p
      end
  | KeyDown k =>
      if keydownListener p
      then (onKeydown (mkKeyboardEvent k (activeElement p)) p).1
      else p
  | MoveFocus f => setActiveElement f p
  end.

Definition staticElement : Element := mkElement CssDefault "".

(** Modelled from the spec: the static markup ([index.html]) is not among
    the sources.  The store is the empty array of line 17 and no listener is
    registered; the document holds the elements the script looks up, with an
    empty grid and spotlight and the one permanent "all" pill, active. *)
Definition initialPage : Page :=
  mkPage (ArrayOf []) staticElement staticElement staticElement []
         [mkPill (Some "all") true []] None "" NoTextField false false.

(** A session: [run()] once, then the events in order. *)
Definition session (a : Acquisition) (events : list Event) : Page :=
  foldl dispatch (run a initialPage) events.

(** *** Examples used below *)

Definition card (n d c : string) : Innovation := mkInnovation n d c "" "" "".

Definition spaceEnergyCatalog : list Innovation :=
  [card "Rocket" "" "Space"; card "Fusion" "" "Energy";
   card "Probe" "" "Space"; card "Chatbot" "" "AI"].

Definition crispr : Innovation :=
  card "CRISPR Gene Editing" "Cuts DNA at a chosen site" "Medicine".

Definition threeCards : list Innovation :=
  [card "Solar Cell" "" "Energy"; card "Vaccine" "" "Medicine";
   card "Battery" "" "Energy"].

Definition threeRecords : list Item := toItem <$> threeCards.

(** An object without [significance], and one without [category]. *)
Definition noSignificance : Item :=
  mkItem (Text "Laser") (Text "Coherent light") (Text "Energy")
         (Plain (Text "laser")) (Text "https://en.wikipedia.org/wiki/Laser")
         Absent.
Definition noCategory : Item :=
  mkItem (Text "Radio") (Text "Wireless signals") Absent
         (Plain (Text "radio")) (Text "https://en.wikipedia.org/wiki/Radio")
         (Text "It connected continents.").

(** The number 5, [null], and an object with an own [toString]
    property, which cannot be printed. *)
Definition five : Value := Other (mkOpaque 1 true (Some "5")).
Definition jsonNull : Value := Other (mkOpaque 0 false (Some "null")).
Definition unprintable : Value := Other (mkOpaque 2 true None).

(** A record whose [name] is the number 5, one whose [imageQuery] cannot
    be printed, and one whose [imageQuery] is the lone surrogate
    ["\ud800"]. *)
Definition numberName : Item :=
  mkItem five (Text "Five") (Text "Energy") (Plain (Text "five")) (Text "")
         (Text "").
Definition badImageQuery : Item :=
  mkItem (Text "Maser") (Text "") (Text "Energy") (Plain unprintable) (Text "")
         (Text "").
Definition loneSurrogate : Item :=
  mkItem (Text "Maser") (Text "Microwaves") (Text "Energy") (Utf16 [55296%N])
         (Text "https://en.wikipedia.org/wiki/Maser") (Text "It came first.").

(** *** Conditions on a page *)

(** [createCard] does not throw on the record: the image address can be
    built and the values it prints can be printed. *)
Definition cardable (i : Item) : Prop :=
  is_Some (specificImage i) /\ is_Some (print (nameProp i)) /\
  is_Some (print (categoryProp i)) /\ is_Some (print (descriptionProp i)) /\
  is_Some (print (learnMoreUrlProp i)).

(** [updateSpotlight] does not throw on the record. *)
Definition spotlightable (i : Item) : Prop :=
  is_Some (print (categoryProp i)) /\ is_Some (print (nameProp i)) /\
  is_Some (print (significanceProp i)) /\ is_Some (print (learnMoreUrlProp i)).

(** Every property is absent or a string of code units below 256. *)
Definition plain (i : Item) : Prop :=
  Forall (fun v => v = Absent \/ exists s, v = Text s)
         [nameProp i; descriptionProp i; categoryProp i;
          learnMoreUrlProp i; significanceProp i] /\
  (imageQueryProp i = Plain Absent \/
   exists s, imageQueryProp i = Plain (Text s)).

(** The parsed values on which the [try] block of [run] completes: an
    array of objects, each of which can be made a card, the first of which,
    if any, can be put in the spotlight. *)
Definition startsUp (data : Stored) : Prop :=
  exists items, data = records items /\ Forall cardable items /\
                (forall first, head items = Some first -> spotlightable first).

(** [name] and [description] are strings: the two properties the filter
    reads with [toLowerCase]. *)
Definition searchable (o : Item) : Prop :=
  is_Some (textOf (nameProp o)) /\ is_Some (textOf (descriptionProp o)).

(** The filter callback throws on this record for the query [nq]: the
    name is not a string, or the name does not match and the description is
    not a string. *)
Definition throwsOn (nq : string) (o : Item) : Prop :=
  textOf (nameProp o) = None \/
  exists n, nameProp o = Text n /\ includes (toLowerCase n) nq = false /\
            textOf (descriptionProp o) = None.

(** Nothing on the page listens: the state before [run] and after a
    [run] that failed in the request or the parse. *)
Definition inert (p : Page) : Prop :=
  inputListener p = false /\ keydownListener p = false /\
  dashboard p = [] /\
  Forall (fun pill => clickListeners pill = []) (categoryFilters p).

(** The pills after a click listener of the pill at [k] has moved the
    class [active]. *)
Definition selectPill (k : nat) (pills : list Pill) : list Pill :=
  alter activate k (deactivate <$> pills).

(** The grid shows a subsequence of the store, and the spotlight, when it
    shows a record, shows one of the store. *)
Definition consistent (p : Page) : Prop :=
  Some <$> dashboard p `sublist_of` elements (allInnovations p) /\
  (forall r, spotlightContainer p = Some r -> Some r ∈ elements (allInnovations p)).

(** Two pages differ at most in the text of the search field and in the
    focus. *)
Definition sameButInput (p p' : Page) : Prop :=
  allInnovations p' = allInnovations p /\
  loader p' = loader p /\
  errorMessage p' = errorMessage p /\
  noResultsMessage p' = noResultsMessage p /\
  dashboard p' = dashboard p /\
  categoryFilters p' = categoryFilters p /\
  spotlightContainer p' = spotlightContainer p /\
  inputListener p' = inputListener p /\
  keydownListener p' = keydownListener p.

(** Two pages agree outside the grid and the "no results" element. *)
Definition sameOutsideGrid (p p' : Page) : Prop :=
  allInnovations p' = allInnovations p /\
  loader p' = loader p /\
  errorMessage p' = errorMessage p /\
  categoryFilters p' = categoryFilters p /\
  spotlightContainer p' = spotlightContainer p /\
  searchValue p' = searchValue p /\
  activeElement p' = activeElement p /\
  inputListener p' = inputListener p /\
  keydownListener p' = keydownListener p.

(** Two pages agree outside the grid. *)
Definition sameButGrid (p p' : Page) : Prop :=
  sameOutsideGrid p p' /\ noResultsMessage p' = noResultsMessage p.

(** Two pages agree outside the pills. *)
Definition sameButPills (p p' : Page) : Prop :=
  allInnovations p' = allInnovations p /\
  loader p' = loader p /\
  errorMessage p' = errorMessage p /\
  noResultsMessage p' = noResultsMessage p /\
  dashboard p' = dashboard p /\
  spotlightContainer p' = spotlightContainer p /\
  searchValue p' = searchValue p /\
  activeElement p' = activeElement p /\
  inputListener p' = inputListener p /\
  keydownListener p' = keydownListener p.

(** What no statement of the [try] block after line 188 writes: the
    store, the loader, the error and "no results" elements, the text of the
    search field and the focus. *)
Definition sameCore (p p' : Page) : Prop :=
  allInnovations p' = allInnovations p /\
  loader p' = loader p /\
  errorMessage p' = errorMessage p /\
  noResultsMessage p' = noResultsMessage p /\
  searchValue p' = searchValue p /\
  activeElement p' = activeElement p.

Ltac frame := repeat split; reflexivity.

(** Decides [Forall plain] on a list of given records. *)
Ltac plain_records :=
  unfold plain;
  repeat first
    [ apply Forall_nil_2
    | apply Forall_cons_2
    | apply conj
    | left; reflexivity
    | right; eexists; reflexivity ].

(** * Properties *)

(** ** Strings *)

Section StringFacts.

Local Arguments String.append !_ _ / : assert.

(** [String.prefix t s] holds exactly when [s] starts with [t]. *)
Lemma prefix_starts (t s : string) :
  String.prefix t s = true <-> exists post, s = t +:+ post.
Proof.
  revert s. induction t as [|a t IH]; intros [|b s]; simpl.
  - split; [intros _; by exists "" | done].
  - split; [intros _; by eexists | done].
  - split; [done | intros [post Hpost]; discriminate].
  - destruct (ascii_dec a b) as [->|Hne].
    + rewrite IH. split; intros [post Hpost]; exists post; congruence.
    + split; [done | intros [post Hpost]; congruence].
Qed.

Lemma includes_nil (t : string) :
  includes "" t = String.prefix t "" || false.
Proof. done. Qed.

Lemma includes_cons a (s t : string) :
  includes (String a s) t = String.prefix t (String a s) || includes s t.
Proof. done. Qed.

Lemma includes_Substring (s t : string) :
  includes s t = true <-> Substring t s.
Proof.
  unfold Substring. induction s as [|a s IH].
  - rewrite includes_nil, orb_false_r, prefix_starts. split.
    + intros [post Hpost]. by exists "", post.
    + intros (pre & post & Heq). destruct pre; [by exists post | discriminate].
  - rewrite includes_cons, orb_true_iff, prefix_starts, IH. split.
    + intros [[post Hpost] | (pre & post & Heq)].
      * by exists "", post.
      * exists (String a pre), post. simpl. by rewrite Heq.
    + intros (pre & post & Heq). destruct pre as [|b pre]; simpl in Heq.
      * left. by exists post.
      * right. exists pre, post. congruence.
Qed.

(** The empty string occurs in every string. *)
Lemma includes_empty (s : string) : includes s "" = true.
Proof. destruct s; done. Qed.

Lemma toLowerCase_length (s : string) :
  String.length (toLowerCase s) = String.length s.
Proof. induction s as [|a s IH]; simpl; congruence. Qed.

Lemma lowerUnit_idemp (a : ascii) : lowerUnit (lowerUnit a) = lowerUnit a.
Proof. destruct a as [[] [] [] [] [] [] [] []]; reflexivity. Qed.

Lemma toLowerCase_idemp (s : string) :
  toLowerCase (toLowerCase s) = toLowerCase s.
Proof.
  induction s as [|a s IH]; simpl; [done|]. by rewrite lowerUnit_idemp, IH.
Qed.

(** Lower-casing neither makes nor removes white space. *)
Lemma isWhiteSpace_lowerUnit (a : ascii) :
  isWhiteSpace (lowerUnit a) = isWhiteSpace a.
Proof. destruct a as [[] [] [] [] [] [] [] []]; reflexivity. Qed.

Lemma trimStart_split (s : string) :
  exists ws, s = ws +:+ trimStart s /\ AllWhiteSpace ws.
Proof.
  induction s as [|a s (ws & Heq & Hws)]; simpl.
  - exists "". split; [done | constructor].
  - destruct (isWhiteSpace a) eqn:Ha.
    + exists (String a ws). split; [simpl; congruence | by constructor].
    + exists "". split; [done | constructor].
Qed.

Lemma trimEnd_split (s : string) :
  exists ws, s = trimEnd s +:+ ws /\ AllWhiteSpace ws.
Proof.
  induction s as [|a s (ws & Heq & Hws)]; simpl.
  - exists "". split; [done | constructor].
  - destruct (trimEnd s) as [|b t] eqn:Ht.
    + destruct (isWhiteSpace a) eqn:Ha.
      * exists (String a ws). simpl in *. split; [congruence | by constructor].
      * exists ws. simpl in *. split; [congruence | done].
    + exists ws. split; [simpl in *; congruence | done].
Qed.

(** [trim] removes a run of white space at each end, and nothing else. *)
Lemma trim_split (s : string) :
  exists front back,
    s = front +:+ trim s +:+ back /\ AllWhiteSpace front /\ AllWhiteSpace back.
Proof.
  destruct (trimStart_split s) as (front & Hs & Hfront).
  destruct (trimEnd_split (trimStart s)) as (back & Ht & Hback).
  exists front, back. unfold trim. by rewrite <- Ht.
Qed.

(** What [trim] returns does not start with white space ... *)
Lemma trimStart_head (s : string) a t :
  trimStart s = String a t -> isWhiteSpace a = false.
Proof.
  induction s as [|b s IH]; simpl; [done|].
  destruct (isWhiteSpace b) eqn:Hb; [done | congruence].
Qed.

Lemma trimEnd_head (s : string) a t :
  trimEnd s = String a t -> exists t', s = String a t'.
Proof.
  destruct s as [|b s]; simpl; [done|].
  destruct (trimEnd s); [destruct (isWhiteSpace b)|]; intros; simplify_eq; eauto.
Qed.

Lemma trim_head (s : string) a t :
  trim s = String a t -> isWhiteSpace a = false.
Proof.
  unfold trim. intros [t' Ht']%trimEnd_head. by eapply trimStart_head.
Qed.

(** ... and does not end with it. *)
Lemma trimEnd_last (s t : string) a :
  trimEnd s = t +:+ String a "" -> isWhiteSpace a = false.
Proof.
  revert t. induction s as [|b s IH]; intros t; simpl.
  - destruct t; done.
  - destruct (trimEnd s) as [|c u] eqn:Hu.
    + destruct (isWhiteSpace b) eqn:Hb.
      * destruct t; done.
      * destruct t as [|x [|y t]]; simpl; intros; simplify_eq. done.
    + destruct t as [|x t]; simpl; intros Heq; simplify_eq.
      by eapply IH.
Qed.

Lemma trim_last (s t : string) a :
  trim s = t +:+ String a "" -> isWhiteSpace a = false.
Proof. apply trimEnd_last. Qed.

End StringFacts.

(** ** The filter *)

Section FilterFacts.

Lemma elem_of_bool_filter {A} (f : A -> bool) (l : list A) (x : A) :
  x ∈ List.filter f l <-> x ∈ l /\ f x = true.
Proof. rewrite !list_elem_of_In. apply filter_In. Qed.

Lemma bool_filter_sublist {A} (f : A -> bool) (l : list A) :
  List.filter f l `sublist_of` l.
Proof.
  induction l as [|x l IH]; simpl; [constructor|].
  destruct (f x); by constructor.
Qed.

Lemma bool_filter_idemp {A} (f : A -> bool) (l : list A) :
  List.filter f (List.filter f l) = List.filter f l.
Proof.
  induction l as [|x l IH]; simpl; [done|].
  destruct (f x) eqn:Hx; simpl; [|done]. by rewrite Hx, IH.
Qed.

Lemma activeCategory_all : activeCategory "all" = None.
Proof. done. Qed.

Lemma activeCategory_other (c : string) :
  c <> "all" -> activeCategory c = Some c.
Proof.
  intros Hc. unfold activeCategory.
  by destruct (String.eqb_spec c "all").
Qed.

Lemma truthy_false (c : string) : truthy c = false <-> c = "".
Proof.
  unfold truthy. destruct (String.eqb_spec c ""); simpl; split; congruence.
Qed.

(** The query half of the callback, as a statement about substrings. *)
Lemma matchesQuery_true (nq : string) (r : Innovation) :
  matchesQuery nq r = true <->
  Substring nq (toLowerCase (name r)) \/
  Substring nq (toLowerCase (description r)).
Proof.
  unfold matchesQuery. by rewrite orb_true_iff, !includes_Substring.
Qed.

(** The category half: no constraint for ["all"] and for the empty
    string, equality otherwise. *)
Lemma matchesCategory_true (c : string) (r : Innovation) :
  matchesCategory (activeCategory c) r = true <->
  c = "all" \/ c = "" \/ category r = c.
Proof.
  unfold activeCategory. destruct (String.eqb_spec c "all") as [->|Hall]; simpl.
  - split; auto.
  - rewrite orb_true_iff, negb_true_iff, truthy_false, String.eqb_eq.
    split; [intros [?|?]; auto | intros [?|[?|?]]; auto; done].
Qed.

Lemma keeps_true (q c : string) (r : Innovation) :
  keeps (normalizedQuery q) (activeCategory c) r = true <->
  (Substring (normalizedQuery q) (toLowerCase (name r)) \/
   Substring (normalizedQuery q) (toLowerCase (description r))) /\
  (c = "all" \/ c = "" \/ category r = c).
Proof.
  unfold keeps. by rewrite andb_true_iff, matchesQuery_true, matchesCategory_true.
Qed.

Lemma matchesQuery_empty (r : Innovation) : matchesQuery "" r = true.
Proof. unfold matchesQuery. by rewrite includes_empty. Qed.

End FilterFacts.

(** C1, as the code has it.  A record is in the result of the filter
    exactly when it is in the catalog, the lower-cased and trimmed query
    occurs in its lower-cased name or in its lower-cased description, and
    the category is ["all"], is the empty string, or equals the record's
    category.  A query that is empty after trimming puts no constraint on
    the record: only the category condition remains. *)
Theorem filtered_membership (q c : string) (catalog : list Innovation) :
  (forall r,
     r ∈ filtered q c catalog <->
     r ∈ catalog /\
     (Substring (normalizedQuery q) (toLowerCase (name r)) \/
      Substring (normalizedQuery q) (toLowerCase (description r))) /\
     (c = "all" \/ c = "" \/ category r = c)) /\
  (normalizedQuery q = "" ->
   forall r,
     r ∈ filtered q c catalog <->
     r ∈ catalog /\ (c = "all" \/ c = "" \/ category r = c)).
Proof.
  unfold filtered. split.
  - intros r. by rewrite elem_of_bool_filter, keeps_true.
  - intros Hq r. rewrite elem_of_bool_filter, Hq. unfold keeps.
    by rewrite matchesQuery_empty, andb_true_l, matchesCategory_true.
Qed.

Lemma filtered_membership_witness :
  normalizedQuery "   " = "" /\
  (crispr ∈ filtered "   " "Medicine" [crispr] <->
   crispr ∈ [crispr] /\
   ("Medicine" = "all" \/ "Medicine" = "" \/ category crispr = "Medicine")).
Proof.
  split; [reflexivity|].
  apply (proj2 (filtered_membership "   " "Medicine" [crispr])). reflexivity.
Defined.

(** C1 as stated fails: with the empty string as category the filter
    keeps a record of category ["Medicine"], which is neither ["all"] nor
    equal to the record's category. *)
Lemma filtered_exact_category_fails :
  ~ (crispr ∈ filtered "" "" [crispr] <->
     crispr ∈ [crispr] /\
     (Substring (normalizedQuery "") (toLowerCase (name crispr)) \/
      Substring (normalizedQuery "") (toLowerCase (description crispr))) /\
     ("" = "all" \/ category crispr = "")).
Proof.
  intros [Hkept _].
  assert (crispr ∈ filtered "" "" [crispr]) as Hin.
  { vm_compute. apply list_elem_of_here. }
  destruct (Hkept Hin) as (_ & _ & [Hall | Hcat]); discriminate.
Qed.

(** C3.  The result of the filter is a subsequence of the catalog: it is
    obtained by deleting records, so nothing is reordered or repeated.  For
    two records [A] before [B] in the catalog that are both in the result,
    the result is the filtered part before [A], then [A], then the filtered
    part between them, then [B], then the filtered rest. *)
Theorem filtered_preserves_order (q c : string) (catalog : list Innovation) :
  filtered q c catalog `sublist_of` catalog /\
  (NoDup catalog -> NoDup (filtered q c catalog)) /\
  (forall before A between B after,
     catalog = before ++ A :: between ++ B :: after ->
     A ∈ filtered q c catalog ->
     B ∈ filtered q c catalog ->
     filtered q c catalog =
       filtered q c before ++ A :: filtered q c between
         ++ B :: filtered q c after).
Proof.
  unfold filtered. split; [apply bool_filter_sublist|]. split.
  - intros Hnd. eauto using sublist_NoDup, bool_filter_sublist.
  - intros before A between B after -> HA HB.
    apply elem_of_bool_filter in HA as [_ HA].
    apply elem_of_bool_filter in HB as [_ HB].
    rewrite List.filter_app. simpl. rewrite HA, List.filter_app. simpl. by rewrite HB.
Qed.

Lemma filtered_preserves_order_witness :
  filtered "" "Space" spaceEnergyCatalog =
    filtered "" "Space" [] ++ card "Rocket" "" "Space"
      :: filtered "" "Space" [card "Fusion" "" "Energy"]
      ++ card "Probe" "" "Space" :: filtered "" "Space" [card "Chatbot" "" "AI"].
Proof.
  apply (proj2 (proj2 (filtered_preserves_order "" "Space" spaceEnergyCatalog))).
  - reflexivity.
  - vm_compute. apply list_elem_of_here.
  - vm_compute. apply list_elem_of_further, list_elem_of_here.
Defined.

(** C6.  Filtering the result of a filter again, with the same query and
    category, returns it unchanged. *)
Theorem filtered_idempotent (q c : string) (catalog : list Innovation) :
  filtered q c (filtered q c catalog) = filtered q c catalog.
Proof. unfold filtered. apply bool_filter_idemp. Qed.

(** The query is matched without regard to case, as a substring. *)
Example crispr_queries :
  filtered "crispr" "all" [crispr] = [crispr] /\
  filtered "CRISPR" "all" [crispr] = [crispr] /\
  filtered " Gene " "all" [crispr] = [crispr] /\
  filtered "genetic" "all" [crispr] = [].
Proof. repeat split. Qed.

(** Query and category are combined by conjunction. *)
Example query_and_category :
  let catalog := [card "A" "" "X"; card "B" "" "Y"] in
  filtered "a" "Y" catalog = [] /\
  filtered "a" "X" catalog = [card "A" "" "X"] /\
  filtered "" "all" catalog = catalog.
Proof. repeat split. Qed.

(** An empty catalog gives an empty result. *)
Lemma filtered_nil (q c : string) : filtered q c [] = [].
Proof. reflexivity. Qed.

(** ** The category list *)

Section CategoryFacts.

Context `{EqDecision A}.

Lemma elem_of_setToArray (seen xs : list A) (x : A) :
  x ∈ setToArray seen xs <-> x ∈ xs /\ x ∉ seen.
Proof.
  revert seen. induction xs as [|y xs IH]; intros seen; simpl.
  - rewrite elem_of_nil. tauto.
  - destruct (decide (y ∈ seen)) as [Hy|Hy].
    + rewrite IH, elem_of_cons. split; [tauto|].
      intros [[->|Hx] Hseen]; [done | tauto].
    + rewrite !elem_of_cons, IH, elem_of_cons. split.
      * intros [->|[Hx Hseen]]; [tauto|]. split; [tauto|]. tauto.
      * intros [[->|Hx] Hseen]; [tauto|].
        destruct (decide (x = y)) as [->|Hne]; [tauto|]. right. tauto.
Qed.

Lemma NoDup_setToArray (seen xs : list A) : NoDup (setToArray seen xs).
Proof.
  revert seen. induction xs as [|y xs IH]; intros seen; simpl.
  - constructor.
  - destruct (decide (y ∈ seen)); [apply IH|].
    constructor; [|apply IH].
    rewrite elem_of_setToArray, elem_of_cons. tauto.
Qed.

(** The values of a [Set], each once. *)
Lemma elem_of_distinct (xs : list A) (x : A) : x ∈ distinct xs <-> x ∈ xs.
Proof.
  unfold distinct. rewrite elem_of_setToArray, elem_of_nil. tauto.
Qed.

Lemma NoDup_distinct (xs : list A) : NoDup (distinct xs).
Proof. apply NoDup_setToArray. Qed.

End CategoryFacts.

Lemma elem_of_categories (catalog : list Innovation) (s : string) :
  s ∈ categories catalog <-> exists r, r ∈ catalog /\ category r = s.
Proof.
  unfold categories.
  rewrite merge_sort_Permutation, elem_of_distinct, list_elem_of_fmap.
  split; intros (r & H1 & H2); exists r; auto.
Qed.

Lemma NoDup_categories (catalog : list Innovation) : NoDup (categories catalog).
Proof.
  unfold categories. rewrite merge_sort_Permutation. apply NoDup_distinct.
Qed.

Lemma Sorted_categories (catalog : list Innovation) :
  StronglySorted String.le (categories catalog).
Proof. apply StronglySorted_merge_sort; apply _. Qed.

(** Two category lists with the same members are the same list. *)
Lemma categories_unique (catalog catalog' : list Innovation) :
  (forall s, s ∈ categories catalog <-> s ∈ categories catalog') ->
  categories catalog = categories catalog'.
Proof.
  intros Hsame. apply (Sorted_unique String.le).
  - apply StronglySorted_Sorted, Sorted_categories.
  - apply StronglySorted_Sorted, Sorted_categories.
  - apply NoDup_Permutation; auto using NoDup_categories.
Qed.

(** C4.  The derived category list holds exactly the category values that
    occur in the catalog, each once, in ascending code-unit order.  It
    depends only on which values occur: catalogs with the same category
    values give the same list.  For the categories Space, Energy, Space, AI
    it is AI, Energy, Space. *)
Theorem categories_sorted_distinct (catalog : list Innovation) :
  (forall s, s ∈ categories catalog <-> exists r, r ∈ catalog /\ category r = s) /\
  NoDup (categories catalog) /\
  StronglySorted String.le (categories catalog) /\
  (forall catalog',
     (forall s, (exists r, r ∈ catalog /\ category r = s) <->
                (exists r, r ∈ catalog' /\ category r = s)) ->
     categories catalog' = categories catalog) /\
  (category <$> spaceEnergyCatalog = ["Space"; "Energy"; "Space"; "AI"] /\
   categories spaceEnergyCatalog = ["AI"; "Energy"; "Space"]).
Proof.
  split; [apply elem_of_categories|].
  split; [apply NoDup_categories|].
  split; [apply Sorted_categories|].
  split; [|split; reflexivity].
  intros catalog' Hsame. apply categories_unique.
  intros s. rewrite !elem_of_categories. symmetry. apply Hsame.
Qed.

Lemma categories_sorted_distinct_witness :
  categories (reverse spaceEnergyCatalog) = categories spaceEnergyCatalog.
Proof.
  apply (proj1 (proj2 (proj2 (proj2
           (categories_sorted_distinct spaceEnergyCatalog))))).
  intros s. split; intros (r & Hr & Hs); exists r; split; try done.
  - apply elem_of_reverse. exact Hr.
  - apply elem_of_reverse in Hr. exact Hr.
Defined.


(** ** The page: what each operation does and leaves alone *)

Section PageFacts.

Lemma print_plain (v : Value) :
  v = Absent \/ (exists s, v = Text s) -> is_Some (print v).
Proof. intros [-> | [s ->]]; by eexists. Qed.

Lemma canPrint_true (v : Value) : canPrint v = true <-> is_Some (print v).
Proof.
  unfold canPrint. destruct (print v); split; try done;
    try (by eexists); by intros [? ?].
Qed.

Lemma specificImage_Some (i : Item) :
  is_Some (specificImage i) <-> is_Some (encodedQuery (imageQueryProp i)).
Proof.
  unfold specificImage. destruct (encodedQuery (imageQueryProp i)); simpl.
  - split; by eexists.
  - split; by intros [? ?].
Qed.

Lemma encodedQuery_plain (q : Query) :
  q = Plain Absent \/ (exists s, q = Plain (Text s)) ->
  is_Some (encodedQuery q).
Proof. intros [-> | [s ->]]; by eexists. Qed.

(** [createCard] returns a card exactly on an object whose image address
    can be built and whose printed properties can be printed, and the card
    is of that object. *)
Lemma createCard_Some (e : option Item) (c : Item) :
  createCard e = Some c <-> e = Some c /\ cardable c.
Proof.
  unfold createCard, cardable. destruct e as [i|]; simpl.
  - destruct (specificImage i) eqn:H1; simpl;
      [|split; [done | intros [[= ->] ([? ?] & _)]; congruence]].
    destruct (print (nameProp i)) eqn:H2; simpl;
      [|split; [done | intros [[= ->] (_ & [? ?] & _)]; congruence]].
    destruct (print (categoryProp i)) eqn:H3; simpl;
      [|split; [done | intros [[= ->] (_ & _ & [? ?] & _)]; congruence]].
    destruct (print (descriptionProp i)) eqn:H4; simpl;
      [|split; [done | intros [[= ->] (_ & _ & _ & [? ?] & _)]; congruence]].
    destruct (print (learnMoreUrlProp i)) eqn:H5; simpl;
      [|split; [done | intros [[= ->] (_ & _ & _ & _ & [? ?])]; congruence]].
    split.
    + intros [= ->]. rewrite H1, H2, H3, H4, H5. repeat split; by eexists.
    + by intros [[= ->] _].
  - split; [done | by intros [? _]].
Qed.

(** Records of absent and string properties can be made cards and be put
    in the spotlight. *)
Lemma plain_cardable (i : Item) : plain i -> cardable i /\ spotlightable i.
Proof.
  unfold plain. rewrite !Forall_cons.
  intros ((H1 & H2 & H3 & H4 & H5 & _) & H6).
  apply print_plain in H1, H2, H3, H4, H5.
  apply encodedQuery_plain, specificImage_Some in H6. by repeat split.
Qed.

Lemma createCard_cardable (i : Item) : cardable i -> createCard (Some i) = Some i.
Proof. intros Hi. by apply createCard_Some. Qed.

Lemma createCard_None (e : option Item) :
  createCard e = None <-> e = None \/ exists i, e = Some i /\ ~ cardable i.
Proof.
  destruct (createCard e) as [c|] eqn:Hc.
  - apply createCard_Some in Hc as [-> Hc]. split; [done|].
    intros [?|(i & [= <-] & Hi)]; done.
  - split; [|done]. intros _. destruct e as [i|]; [|by left].
    right. exists i. split; [done|]. intros Hi.
    by rewrite (createCard_cardable i Hi) in Hc.
Qed.

(** What [updateSpotlight] does. *)
Lemma updateSpotlight_Normal (e : option Item) (p p' : Page) :
  updateSpotlight e p = Normal p' <->
  exists i, e = Some i /\ spotlightable i /\ p' = setSpotlightContainer (Some i) p.
Proof.
  unfold updateSpotlight, spotlightable. destruct e as [i|]; simpl.
  - destruct (print (categoryProp i)) eqn:H1; simpl;
      [|split; [done | intros (? & [= <-] & ([? ?] & _) & _); congruence]].
    destruct (print (nameProp i)) eqn:H2; simpl;
      [|split; [done | intros (? & [= <-] & (_ & [? ?] & _) & _); congruence]].
    destruct (print (significanceProp i)) eqn:H3; simpl;
      [|split; [done | intros (? & [= <-] & (_ & _ & [? ?] & _) & _); congruence]].
    destruct (print (learnMoreUrlProp i)) eqn:H4; simpl;
      [|split; [done | intros (? & [= <-] & (_ & _ & _ & [? ?]) & _); congruence]].
    split.
    + intros [= <-]. exists i. rewrite H1, H2, H3, H4.
      repeat split; by eexists.
    + by intros (? & [= <-] & _ & ->).
  - split; [done | by intros (? & ? & _)].
Qed.

Lemma updateSpotlight_spotlightable (i : Item) (p : Page) :
  spotlightable i ->
  updateSpotlight (Some i) p = Normal (setSpotlightContainer (Some i) p).
Proof. intros Hi. apply updateSpotlight_Normal. by exists i. Qed.

Lemma updateSpotlight_settle (e : option Item) (p : Page) :
  settle (updateSpotlight e p) = p \/
  exists i, e = Some i /\ spotlightable i /\
            settle (updateSpotlight e p) = setSpotlightContainer (Some i) p.
Proof.
  destruct (updateSpotlight e p) as [p'|p'] eqn:Hu.
  - apply updateSpotlight_Normal in Hu as (i & -> & Hi & ->).
    right. by exists i.
  - left. unfold updateSpotlight in Hu. by case_match; simplify_eq.
Qed.

(** The loop of [renderGrid] adds cards for a leading part of the array
    and touches nothing but the grid. *)
Lemma appendCards_settle (els : list (option Item)) (p : Page) :
  exists added,
    dashboard (settle (appendCards els p)) = dashboard p ++ added /\
    Some <$> added `prefix_of` els /\
    Forall cardable added /\
    sameButGrid p (settle (appendCards els p)).
Proof.
  revert p. induction els as [|e els IH]; intros p; cbn [appendCards].
  - exists []. rewrite app_nil_r.
    repeat split; try done; try (by constructor); by exists [].
  - destruct (createCard e) as [c|] eqn:Hc.
    + apply createCard_Some in Hc as [-> Hc].
      destruct (IH (setDashboard (dashboard p ++ [c]) p))
        as (added & Hd & Hpre & Hall & Hsame).
      exists (c :: added). split; [|split; [|split]].
      * rewrite Hd. cbn [dashboard setDashboard]. by rewrite <- app_assoc.
      * rewrite fmap_cons. by apply prefix_cons.
      * by constructor.
      * destruct Hsame as [Hout Hno]. unfold sameOutsideGrid in Hout.
        destruct_and!. repeat split; etrans; eauto.
    + exists []. rewrite app_nil_r.
      repeat split; try done; try (by constructor); apply prefix_nil.
Qed.

Lemma appendCards_Normal (els : list (option Item)) (p p' : Page) :
  appendCards els p = Normal p' <->
  exists items, els = Some <$> items /\ Forall cardable items /\
                p' = setDashboard (dashboard p ++ items) p.
Proof.
  revert p. induction els as [|e els IH]; intros p; cbn [appendCards].
  - split.
    + intros [= <-]. exists []. repeat split; [constructor|].
      destruct p. cbn. by rewrite app_nil_r.
    + intros (items & Heq & _ & ->). destruct items; [|done].
      f_equal. destruct p. cbn. by rewrite app_nil_r.
  - destruct (createCard e) as [c|] eqn:Hc.
    + apply createCard_Some in Hc as [-> Hc]. rewrite IH. split.
      * intros (items & -> & Hall & ->). exists (c :: items).
        repeat split; [by constructor|].
        cbn. by rewrite <- app_assoc.
      * intros (items & Heq & Hall & ->). destruct items as [|c' items]; [done|].
        rewrite fmap_cons in Heq. injection Heq as <- ->.
        apply Forall_cons in Hall as [_ Hall]. exists items.
        repeat split; [done|]. cbn. by rewrite <- app_assoc.
    + split; [done|]. intros (items & Heq & Hall & _).
      destruct items as [|c items]; [done|].
      apply Forall_cons in Hall as [Hcard _].
      rewrite fmap_cons in Heq. injection Heq as -> _.
      by rewrite (createCard_cardable c Hcard) in Hc.
Qed.

(** [renderGrid] completes exactly on an array of objects that can all be
    made cards, and then the grid shows them in order. *)
Lemma renderGrid_Normal (data : Stored) (p p' : Page) :
  renderGrid data p = Normal p' <->
  exists items, data = records items /\ Forall cardable items /\
                p' = setDashboard items p.
Proof.
  unfold renderGrid, records. destruct data as [|els].
  - split; [done | by intros (? & ? & _)].
  - rewrite appendCards_Normal. split.
    + intros (items & -> & Hall & ->). by exists items.
    + intros (items & [= ->] & Hall & ->). by exists items.
Qed.

(** Whether it completes or not, [renderGrid] leaves cards for a leading
    part of the array and touches nothing but the grid. *)
Lemma renderGrid_settle (data : Stored) (p : Page) :
  Some <$> dashboard (settle (renderGrid data p)) `prefix_of` elements data /\
  Forall cardable (dashboard (settle (renderGrid data p))) /\
  sameButGrid p (settle (renderGrid data p)).
Proof.
  unfold renderGrid. destruct data as [|els].
  - repeat split; try done; try (by constructor); apply prefix_nil.
  - destruct (appendCards_settle els (setDashboard [] p))
      as (added & Hd & Hpre & Hall & Hsame).
    rewrite Hd. cbn [dashboard setDashboard app]. repeat split; try done;
      destruct Hsame as [Hout Hno]; unfold sameOutsideGrid in Hout;
      destruct_and!; done.
Qed.

End PageFacts.

(** ** Sorting and building the pills *)

Section SetupFacts.

Lemma insertSorted_Permutation (x : Value) (l : list Value) :
  insertSorted x l ≡ₚ x :: l.
Proof.
  induction l as [|y l IH]; cbn [insertSorted]; [done|].
  destruct (String.leb (sortKey x) (sortKey y)); [done|].
  rewrite IH. apply Permutation_swap.
Qed.

Lemma stableSort_Permutation (l : list Value) : stableSort l ≡ₚ l.
Proof.
  unfold stableSort. induction l as [|x l IH]; cbn [foldr]; [done|].
  by rewrite insertSorted_Permutation, IH.
Qed.

Lemma split_absent (xs : list Value) :
  List.filter (fun v => negb (isAbsent v)) xs ++ List.filter isAbsent xs ≡ₚ xs.
Proof.
  induction xs as [|x xs IH]; cbn [List.filter]; [done|].
  destruct (isAbsent x); cbn [negb app].
  - rewrite <- Permutation_middle. by f_equiv.
  - by f_equiv.
Qed.

(** [sort] returns the values it was given. *)
Lemma sortValues_Permutation (xs sorted : list Value) :
  sortValues xs = Some sorted -> sorted ≡ₚ xs.
Proof.
  unfold sortValues. case_decide.
  - intros [= <-]. apply split_absent.
  - case_match; [|done]. intros [= <-].
    rewrite stableSort_Permutation. apply split_absent.
Qed.

Lemma elem_of_sortValues (xs sorted : list Value) (x : Value) :
  sortValues xs = Some sorted -> x ∈ sorted <-> x ∈ xs.
Proof. intros Hs. by rewrite (sortValues_Permutation xs sorted Hs). Qed.

Lemma sortValues_printable (xs : list Value) :
  Forall (fun v => is_Some (print v)) xs -> is_Some (sortValues xs).
Proof.
  intros Hall. unfold sortValues. case_decide; [by eexists|].
  assert (forallb canPrint (List.filter (fun v => negb (isAbsent v)) xs) = true)
    as ->; [|by eexists].
  apply forallb_forall. intros v [Hv _]%filter_In.
  apply canPrint_true. rewrite Forall_forall in Hall.
  by apply Hall, list_elem_of_In.
Qed.

Lemma newPill_Some (cat : Value) (pill : Pill) :
  newPill cat = Some pill <-> is_Some (print cat) /\ pill = pillOf cat.
Proof.
  unfold newPill, pillOf, sortKey. destruct (print cat) as [label|]; simpl.
  - split; [intros [= <-]; split; [by eexists | done] | by intros [_ ->]].
  - split; [done | by intros [[? ?] _]].
Qed.

(** The loop that appends the pills completes exactly when every
    category can be printed. *)
Lemma appendPills_Normal (cats : list Value) (p p' : Page) :
  appendPills cats p = Normal p' <->
  Forall (fun v => is_Some (print v)) cats /\
  p' = setCategoryFilters (categoryFilters p ++ (pillOf <$> cats)) p.
Proof.
  revert p. induction cats as [|c cats IH]; intros p; cbn [appendPills].
  - split.
    + intros [= <-]. split; [constructor|]. destruct p. cbn. by rewrite app_nil_r.
    + intros [_ ->]. f_equal. destruct p. cbn. by rewrite app_nil_r.
  - destruct (newPill c) as [pill|] eqn:Hc.
    + apply newPill_Some in Hc as [Hprint ->]. rewrite IH.
      rewrite Forall_cons. cbn. rewrite <- app_assoc. cbn. tauto.
    + split; [done|]. intros [[Hprint _]%Forall_cons _].
      assert (newPill c = Some (pillOf c)) by (by apply newPill_Some).
      congruence.
Qed.

Lemma appendPills_settle (cats : list Value) (p : Page) :
  sameButPills p (settle (appendPills cats p)).
Proof.
  revert p. induction cats as [|c cats IH]; intros p; cbn [appendPills].
  - repeat split.
  - destruct (newPill c); [|repeat split].
    specialize (IH (setCategoryFilters (categoryFilters p ++ [p0]) p)).
    unfold sameButPills in *. destruct_and!. repeat split; etrans; eauto.
Qed.

Lemma categoryValues_records (items : list Item) :
  categoryValues (Some <$> items) = Some (categoryProp <$> items).
Proof.
  unfold categoryValues.
  induction items as [|i items IH]; [done|].
  rewrite fmap_cons. cbn [mapArray]. cbn. by rewrite IH.
Qed.

Lemma categoryValues_Some (els : list (option Item)) (cats : list Value) :
  categoryValues els = Some cats ->
  exists items, els = Some <$> items /\ cats = categoryProp <$> items.
Proof.
  unfold categoryValues. revert cats.
  induction els as [|e els IH]; intros cats; cbn [mapArray].
  - intros [= <-]. by exists [].
  - destruct e as [i|]; [|done]. cbn.
    destruct (mapArray _ els) as [rest|]; [|done]. cbn. intros [= <-].
    destruct (IH rest eq_refl) as (items & -> & ->). by exists (i :: items).
Qed.

(** [setupFilters] writes nothing but the pills. *)
Lemma setupFilters_settle (data : Stored) (p : Page) :
  sameButPills p (settle (setupFilters data p)).
Proof.
  unfold setupFilters. destruct data as [|els]; [repeat split|].
  destruct (categoryValues els ≫= _) as [sorted|]; [|repeat split].
  pose proof (appendPills_settle sorted
                (setCategoryFilters (List.filter isAllPill (categoryFilters p)) p))
    as Hsame.
  destruct (appendPills sorted _) as [p1|p1]; cbn [andThen settle] in *;
    unfold sameButPills in *; destruct_and!; repeat split; done.
Qed.

(** [setupFilters] completes exactly on an array of objects whose
    categories can all be printed. *)
Lemma setupFilters_Normal (data : Stored) (p p' : Page) :
  setupFilters data p = Normal p' <->
  exists items sorted,
    data = records items /\
    Forall (fun i => is_Some (print (categoryProp i))) items /\
    sortValues (distinct (categoryProp <$> items)) = Some sorted /\
    p' = setCategoryFilters
           (listenOnAllPill (List.filter isAllPill (categoryFilters p)
                             ++ (pillOf <$> sorted))) p.
Proof.
  unfold setupFilters, records. destruct data as [|els].
  { split; [done | by intros (? & ? & ? & _)]. }
  split.
  - destruct (categoryValues els) as [cats|] eqn:Hcats; cbn; [|done].
    apply categoryValues_Some in Hcats as (items & -> & ->).
    destruct (sortValues _) as [sorted|] eqn:Hsort; [|done].
    destruct (appendPills sorted _) as [p1|p1] eqn:Hp1; cbn; [|done].
    apply appendPills_Normal in Hp1 as [Hprint ->]. intros [= <-].
    exists items, sorted. repeat split; try done.
    apply Forall_forall. intros i Hi. rewrite Forall_forall in Hprint.
    apply Hprint. rewrite (elem_of_sortValues _ _ _ Hsort), elem_of_distinct.
    by apply list_elem_of_fmap_2.
  - intros (items & sorted & [= ->] & Hprint & Hsort & ->).
    rewrite categoryValues_records. cbn. rewrite Hsort.
    assert (Forall (fun v => is_Some (print v)) sorted) as Hsorted.
    { apply Forall_forall. intros v Hv.
      rewrite (elem_of_sortValues _ _ _ Hsort), elem_of_distinct in Hv.
      apply list_elem_of_fmap in Hv as (i & -> & Hi).
      rewrite Forall_forall in Hprint. by apply Hprint. }
    by rewrite (proj2 (appendPills_Normal sorted _ _) (conj Hsorted eq_refl)).
Qed.

Lemma setupFilters_printable (items : list Item) (p : Page) :
  Forall (fun i => is_Some (print (categoryProp i))) items ->
  exists p', setupFilters (records items) p = Normal p'.
Proof.
  intros Hprint.
  destruct (sortValues_printable (distinct (categoryProp <$> items)))
    as [sorted Hsort].
  { apply Forall_forall. intros v Hv. rewrite elem_of_distinct in Hv.
    apply list_elem_of_fmap in Hv as (i & -> & Hi).
    rewrite Forall_forall in Hprint. by apply Hprint. }
  eexists. apply setupFilters_Normal. by exists items, sorted.
Qed.

End SetupFacts.

(** ** The filter on the store *)

Section ItemFilterFacts.

Lemma fmap_Some_prefix (a b : list Item) :
  Some <$> a `prefix_of` Some <$> b -> a `prefix_of` b.
Proof.
  revert b. induction a as [|x a IH]; intros b; [intros _; apply prefix_nil|].
  destruct b as [|y b]; rewrite ?fmap_cons.
  - intros [k Hk]. discriminate.
  - intros [k Hk]. injection Hk as <- Hk.
    apply prefix_cons, IH. by exists k.
Qed.

Lemma filterElements_sublist (f : Item -> option bool)
    (els : list (option Item)) (kept : list Item) :
  filterElements f els = Some kept -> Some <$> kept `sublist_of` els.
Proof.
  revert kept. induction els as [|e els IH]; intros kept; cbn [filterElements].
  - intros [= <-]. constructor.
  - destruct e as [i|]; [|done]. cbn.
    destruct (f i) as [b|]; [|done]. cbn.
    destruct (filterElements f els) as [rest|]; [|done]. cbn.
    intros [= <-]. destruct b; rewrite ?fmap_cons; constructor; by apply IH.
Qed.

Lemma filterElements_None (f : Item -> option bool) (els : list (option Item)) :
  filterElements f els = None <->
  Exists (fun e => e = None \/ exists i, e = Some i /\ f i = None) els.
Proof.
  induction els as [|e els IH]; cbn [filterElements].
  - split; [done | by intros ?%Exists_nil].
  - rewrite Exists_cons, <- IH. destruct e as [i|]; cbn.
    + destruct (f i) as [b|] eqn:Hf; cbn.
      * destruct (filterElements f els); cbn.
        -- split; [done|]. intros [[?|(? & [= <-] & ?)]|?]; congruence.
        -- split; [by right | done].
      * split; [|done]. intros _. left. right. by exists i.
    + split; [|done]. intros _. left. by left.
Qed.

Lemma keepsItem_None (nq : string) (ac : Value) (o : Item) :
  keepsItem nq ac o = None <-> throwsOn nq o.
Proof.
  unfold keepsItem, throwsOn.
  destruct (nameProp o) as [|n|x]; cbn; try (split; by auto).
  destruct (includes (toLowerCase n) nq) eqn:Hn; cbn.
  - split; [done|]. intros [?|(n' & [= <-] & Hf & _)]; congruence.
  - destruct (textOf (descriptionProp o)) as [d|] eqn:Hd; cbn.
    + split; [done|]. intros [?|(n' & _ & _ & ?)]; done.
    + split; [|done]. intros _. right. by exists n.
Qed.

Lemma searchable_not_throwsOn (nq : string) (o : Item) :
  searchable o -> ~ throwsOn nq o.
Proof.
  intros [[n Hn] [d Hd]] [H|(n' & _ & _ & H)]; congruence.
Qed.

Lemma andThen_settle (c : Completion) (k : Page -> Completion) :
  settle (andThen c k)
  = match c with
    | Normal p => settle (k p)
    | Thrown p => p
    end.
Proof. by destruct c. Qed.

Lemma showNoResults_settle (q : string) (c : Value) (count : nat) (p : Page) :
  sameOutsideGrid p (settle (showNoResults q c count p)) /\
  dashboard (settle (showNoResults q c count p)) = dashboard p /\
  display (noResultsMessage (settle (showNoResults q c count p)))
  = (if decide (count = 0) then DisplayBlock else DisplayNone).
Proof. unfold showNoResults. destruct (print c); repeat split. Qed.

(** A filter pass writes nothing but the grid and the "no results"
    element; it leaves the page as it was, or the grid with a leading part
    of the kept records. *)
Lemma filterInnovations_settle (q : string) (c : Value) (p : Page) :
  sameOutsideGrid p (settle (filterInnovations q c p)) /\
  (settle (filterInnovations q c p) = p \/
   exists filtered,
     filteredItems q c (allInnovations p) = Some filtered /\
     dashboard (settle (filterInnovations q c p)) `prefix_of` filtered /\
     Forall cardable (dashboard (settle (filterInnovations q c p)))).
Proof.
  unfold filterInnovations.
  destruct (filteredItems q c (allInnovations p)) as [filtered|] eqn:Hf;
    [|split; [frame | by left]].
  rewrite andThen_settle.
  destruct (renderGrid_settle (records filtered) p) as (Hpre & Hall & Hout & Hno).
  destruct (renderGrid (records filtered) p) as [p1|p1]; cbn [settle] in *.
  - destruct (showNoResults_settle q c (length filtered) p1) as (Hlast & Hgrid & _).
    split.
    + unfold sameOutsideGrid in *. destruct_and!. repeat split; etrans; eauto.
    + right. exists filtered. rewrite Hgrid.
      split; [done|]. split; [by apply fmap_Some_prefix | done].
  - split; [by destruct Hout|]. right. exists filtered.
    split; [done|]. split; [by apply fmap_Some_prefix | done].
Qed.

Lemma filterInnovations_frame (q : string) (c : Value) (p : Page) :
  sameOutsideGrid p (settle (filterInnovations q c p)).
Proof. apply filterInnovations_settle. Qed.

(** On records that can be made cards, a completed filter puts the kept
    records on the grid. *)
Lemma filter_grid (q : string) (c : Value) (p : Page) (kept : list Item) :
  filteredItems q c (allInnovations p) = Some kept ->
  Forall cardable kept ->
  dashboard (settle (filterInnovations q c p)) = kept.
Proof.
  intros Hf Hall. unfold filterInnovations. rewrite Hf, andThen_settle.
  rewrite (proj2 (renderGrid_Normal (records kept) p (setDashboard kept p)))
    by (by exists kept).
  cbn [settle]. apply showNoResults_settle.
Qed.

End ItemFilterFacts.

(** ** Start-up *)

Section RunFacts.

Lemma sameCore_refl (p : Page) : sameCore p p.
Proof. repeat split. Qed.

Lemma sameCore_trans (p1 p2 p3 : Page) :
  sameCore p1 p2 -> sameCore p2 p3 -> sameCore p1 p3.
Proof.
  unfold sameCore. intros H12 H23. destruct_and!. repeat split; congruence.
Qed.

Lemma setupFilters_core (data : Stored) (p : Page) :
  sameCore p (settle (setupFilters data p)).
Proof.
  pose proof (setupFilters_settle data p) as H.
  unfold sameButPills, sameCore in *. destruct_and!. done.
Qed.

Lemma renderGrid_core (data : Stored) (p : Page) :
  sameCore p (settle (renderGrid data p)).
Proof.
  destruct (renderGrid_settle data p) as (_ & _ & Hout & Hno).
  unfold sameOutsideGrid, sameCore in *. destruct_and!. done.
Qed.

Lemma updateSpotlight_core (e : option Item) (p : Page) :
  sameCore p (settle (updateSpotlight e p)).
Proof.
  destruct (updateSpotlight_settle e p) as [-> | (i & _ & _ & ->)];
    repeat split.
Qed.

Lemma tryBlock_parsed (data : Stored) (p : Page) :
  tryBlock (Parsed data) p
  = afterLoader (setLoader (withDisplay DisplayNone (loader p))
                           (setAllInnovations data p)).
Proof. done. Qed.

Lemma afterLoader_core (p : Page) : sameCore p (settle (afterLoader p)).
Proof.
  unfold afterLoader. rewrite andThen_settle.
  pose proof (setupFilters_core (allInnovations p) p) as H1.
  destruct (setupFilters (allInnovations p) p) as [p1|p1]; cbn [settle] in *;
    [|done].
  rewrite andThen_settle.
  pose proof (renderGrid_core (allInnovations p1) p1) as H2.
  destruct (renderGrid (allInnovations p1) p1) as [p2|p2]; cbn [settle] in *;
    [|by eapply sameCore_trans].
  rewrite andThen_settle.
  assert (sameCore p p2) as H12 by (by eapply sameCore_trans).
  case_decide.
  - pose proof (updateSpotlight_core (firstElement (allInnovations p2)) p2) as H3.
    destruct (updateSpotlight _ p2) as [p3|p3]; cbn [settle] in *.
    + eapply sameCore_trans; [exact H12|].
      eapply sameCore_trans; [exact H3|]. repeat split.
    + by eapply sameCore_trans.
  - cbn [settle]. eapply sameCore_trans; [exact H12|]. repeat split.
Qed.

(** The parsed value is in the store whatever the rest of the [try]
    block does, and the loader is hidden. *)
Lemma tryBlock_store (data : Stored) (p : Page) :
  allInnovations (settle (tryBlock (Parsed data) p)) = data /\
  loader (settle (tryBlock (Parsed data) p)) = withDisplay DisplayNone (loader p) /\
  errorMessage (settle (tryBlock (Parsed data) p)) = errorMessage p.
Proof.
  rewrite tryBlock_parsed.
  pose proof (afterLoader_core (setLoader (withDisplay DisplayNone (loader p))
                                          (setAllInnovations data p))) as H.
  unfold sameCore in H. by destruct H as (-> & -> & -> & _).
Qed.

Lemma run_settle (a : Acquisition) (p : Page) :
  run a p = match tryBlock a p with
            | Normal p' => p'
            | Thrown p' => catchBlock p'
            end.
Proof. done. Qed.

Lemma run_store (a : Acquisition) (p : Page) :
  allInnovations (run a p)
  = match a with
    | Parsed data => data
    | ServiceFailure | NotJson => allInnovations p
    end.
Proof.
  destruct a as [| |data]; [done | done |]. unfold run.
  destruct (tryBlock_store data p) as (Hs & _).
  by destruct (tryBlock (Parsed data) p).
Qed.

(** The [try] block completes exactly on the values of [startsUp], and
    then the page is this. *)
Lemma tryBlock_Normal (data : Stored) (p p' : Page) :
  tryBlock (Parsed data) p = Normal p' ->
  exists items sorted,
    data = records items /\ Forall cardable items /\
    (forall first, head items = Some first -> spotlightable first) /\
    sortValues (distinct (categoryProp <$> items)) = Some sorted /\
    allInnovations p' = data /\
    dashboard p' = items /\
    spotlightContainer p'
      = match items with
        | [] => spotlightContainer p
        | first :: _ => Some first
        end /\
    categoryFilters p'
      = listenOnAllPill (List.filter isAllPill (categoryFilters p)
                         ++ (pillOf <$> sorted)) /\
    inputListener p' = true /\ keydownListener p' = true.
Proof.
  rewrite tryBlock_parsed. unfold afterLoader.
  set (p0 := setLoader (withDisplay DisplayNone (loader p))
                       (setAllInnovations data p)).
  destruct (setupFilters (allInnovations p0) p0) as [p1|p1] eqn:H1;
    cbn [andThen]; [|done].
  apply setupFilters_Normal in H1 as (items & sorted & Hdata & Hprint & Hsort & ->).
  cbn [allInnovations setCategoryFilters] in *.
  destruct (renderGrid (allInnovations p0) _) as [p2|p2] eqn:H2;
    cbn [andThen]; [|done].
  apply renderGrid_Normal in H2 as (items' & Hdata' & Hcards & ->).
  assert (items' = items) as ->.
  { rewrite Hdata in Hdata'. unfold records in Hdata'.
    injection Hdata' as Heq. symmetry. by apply (inj (fmap Some)) in Heq. }
  cbn [allInnovations setDashboard setCategoryFilters] in *.
  change (allInnovations p0) with data in *. subst data.
  unfold records, firstElement. cbn [elements]. rewrite length_fmap.
  destruct items as [|first rest].
  - cbn. intros [= <-]. exists [], sorted. repeat split; try done.
  - cbn [length]. rewrite decide_True by lia.
    cbn [fmap list_fmap head mjoin option_join].
    destruct (updateSpotlight (Some first) _) as [p3|p3] eqn:H3;
      cbn [andThen]; [|done].
    apply updateSpotlight_Normal in H3 as (i & [= <-] & Hspot & ->).
    intros [= <-]. exists (first :: rest), sorted.
    repeat split; try done; simplify_eq/=; apply Hspot.
Qed.

Lemma cardable_category (i : Item) : cardable i -> is_Some (print (categoryProp i)).
Proof. by intros (_ & _ & ? & _). Qed.

Lemma tryBlock_startsUp (data : Stored) (p : Page) :
  startsUp data -> exists p', tryBlock (Parsed data) p = Normal p'.
Proof.
  intros (items & -> & Hcards & Hfirst).
  rewrite tryBlock_parsed. unfold afterLoader.
  set (p0 := setLoader (withDisplay DisplayNone (loader p))
                       (setAllInnovations (records items) p)).
  destruct (setupFilters_printable items p0) as [p1 H1].
  { eapply Forall_impl; [exact Hcards|]. apply cardable_category. }
  change (allInnovations p0) with (records items). rewrite H1. cbn [andThen].
  pose proof (setupFilters_core (records items) p0) as Hcore.
  rewrite H1 in Hcore. cbn [settle] in Hcore. destruct Hcore as (Hs & _).
  rewrite Hs. change (allInnovations p0) with (records items).
  rewrite (proj2 (renderGrid_Normal (records items) p1 (setDashboard items p1)))
    by (by exists items).
  cbn [andThen allInnovations setDashboard]. rewrite Hs.
  change (allInnovations p0) with (records items).
  unfold records, firstElement. cbn [elements]. rewrite length_fmap.
  destruct items as [|first rest].
  - cbn. by eexists.
  - cbn [length]. rewrite decide_True by lia.
    cbn [fmap list_fmap head mjoin option_join].
    rewrite updateSpotlight_spotlightable by (by apply Hfirst).
    cbn. by eexists.
Qed.

Lemma signalsError_false (data : Stored) (p : Page) :
  signalsError (Parsed data) p = false <-> startsUp data.
Proof.
  unfold signalsError. split.
  - destruct (tryBlock (Parsed data) p) as [p'|p'] eqn:Ht; [|done]. intros _.
    apply tryBlock_Normal in Ht as (items & sorted & -> & Hc & Hf & _).
    by exists items.
  - intros Hs. by destruct (tryBlock_startsUp data p Hs) as [p' ->].
Qed.

End RunFacts.

(** ** Listeners *)

Section ListenerFacts.

Lemma onPillClick_store (k : nat) (c : Value) (p : Page) :
  allInnovations (settle (onPillClick k c p)) = allInnovations p /\
  spotlightContainer (settle (onPillClick k c p)) = spotlightContainer p.
Proof.
  unfold onPillClick.
  destruct (filterInnovations_frame (searchValue p) c
              (setCategoryFilters
                 (alter activate k (deactivate <$> categoryFilters p)) p))
    as (H1 & _ & _ & _ & H5 & _).
  by rewrite H1, H5.
Qed.

Lemma pill_listeners_store (k : nat) (cats : list Value) (p : Page) :
  let p' := foldl (fun p cat => settle (onPillClick k cat p)) p cats in
  allInnovations p' = allInnovations p /\
  spotlightContainer p' = spotlightContainer p.
Proof.
  revert p. induction cats as [|c cats IH]; intros p; simpl; [done|].
  destruct (IH (settle (onPillClick k c p))) as [H1 H2].
  destruct (onPillClick_store k c p) as [H3 H4].
  split; congruence.
Qed.

(** No listener assigns to [allInnovations]. *)
Lemma dispatch_store (p : Page) (e : Event) :
  allInnovations (dispatch p e) = allInnovations p.
Proof.
  destruct e as [text|k|k|k|f]; simpl.
  - destruct (inputListener p); [|done].
    unfold onInput.
    by destruct (filterInnovations_frame (searchValue (setSearchValue text p))
                   (Text (activePillCategory (categoryFilters (setSearchValue text p))))
                   (setSearchValue text p)) as [-> _].
  - destruct (categoryFilters p !! k); [|done]. apply pill_listeners_store.
  - destruct (dashboard p !! k) as [i|]; [|done].
    by destruct (updateSpotlight_settle (Some i) p) as [-> | (? & _ & _ & ->)].
  - destruct (keydownListener p); [|done].
    unfold onKeydown. by case_match.
  - done.
Qed.

Lemma events_store (p : Page) (events : list Event) :
  allInnovations (foldl dispatch p events) = allInnovations p.
Proof.
  revert p. induction events as [|e events IH]; intros p; simpl; [done|].
  by rewrite IH, dispatch_store.
Qed.

(** Only a click on a card writes the spotlight. *)
Lemma dispatch_spotlight (p : Page) (e : Event) :
  spotlightContainer (dispatch p e) = spotlightContainer p \/
  exists k i, e = ClickCard k /\ dashboard p !! k = Some i /\
              spotlightContainer (dispatch p e) = Some i.
Proof.
  destruct e as [text|k|k|k|f]; simpl.
  - left. destruct (inputListener p); [|done].
    unfold onInput.
    by destruct (filterInnovations_frame (searchValue (setSearchValue text p))
                   (Text (activePillCategory (categoryFilters (setSearchValue text p))))
                   (setSearchValue text p)) as (_ & _ & _ & _ & -> & _).
  - left. destruct (categoryFilters p !! k); [|done]. apply pill_listeners_store.
  - destruct (dashboard p !! k) as [i|] eqn:Hk; [|by left].
    destruct (updateSpotlight_settle (Some i) p) as [-> | (i' & [= <-] & _ & ->)].
    + by left.
    + right. by exists k, i.
  - left. destruct (keydownListener p); [|done].
    unfold onKeydown. by case_match.
  - by left.
Qed.

End ListenerFacts.

(** ** Start-up and the session *)

(** C2, as the code has it.  A failure of the service and a response that
    is not JSON take the [catch] branch, with the store as it was.  Every
    value that parses is written to the store unchecked, and stays there
    even when a later statement of the [try] block throws.  The [catch]
    branch is then taken exactly when the value is not an array or holds
    [null], when a card cannot be made of some record (its image query
    cannot be encoded, or a property the card prints cannot be converted to
    a string), or when the first record cannot be put in the spotlight.  In
    particular an array of records whose properties are absent or strings of
    code units below 256, empty or not, is admitted without an error, and
    the error element is not touched. *)
Theorem acquisition_outcomes (p : Page) :
  (signalsError ServiceFailure p = true /\
   allInnovations (run ServiceFailure p) = allInnovations p) /\
  (signalsError NotJson p = true /\
   allInnovations (run NotJson p) = allInnovations p) /\
  (forall data, allInnovations (run (Parsed data) p) = data) /\
  (forall data, signalsError (Parsed data) p = false <-> startsUp data) /\
  (forall items,
     Forall plain items ->
     signalsError (Parsed (records items)) p = false /\
     dashboard (run (Parsed (records items)) p) = items /\
     errorMessage (run (Parsed (records items)) p) = errorMessage p).
Proof.
  split; [done|]. split; [done|].
  split; [intros data; apply (run_store (Parsed data))|].
  split; [intros data; apply signalsError_false|].
  intros items Hplain.
  assert (startsUp (records items)) as Hstart.
  { exists items. split; [done|].
    pose proof plain_cardable as Hp.
    split.
    - eapply Forall_impl; [exact Hplain|]. intros i Hi. by apply Hp.
    - intros first Hfirst. apply Hp. rewrite Forall_forall in Hplain.
      apply Hplain. by apply head_Some_elem_of. }
  unfold signalsError, run.
  destruct (tryBlock_startsUp _ p Hstart) as [p' Ht]. rewrite Ht.
  split; [done|].
  pose proof (tryBlock_store (records items) p) as (_ & _ & Herr).
  rewrite Ht in Herr. cbn [settle] in Herr.
  apply tryBlock_Normal in Ht
    as (items' & sorted & Heq & _ & _ & _ & _ & Hgrid & _).
  unfold records in Heq. injection Heq as Heq.
  by apply (inj (fmap Some)) in Heq as <-.
Qed.

Lemma acquisition_outcomes_witness :
  signalsError (Parsed (records [noSignificance; noCategory])) initialPage = false /\
  dashboard (run (Parsed (records [noSignificance; noCategory])) initialPage)
    = [noSignificance; noCategory] /\
  errorMessage (run (Parsed (records [noSignificance; noCategory])) initialPage)
    = errorMessage initialPage.
Proof.
  apply (proj2 (proj2 (proj2 (proj2 (acquisition_outcomes initialPage))))).
  plain_records.
Defined.

(** C2 as stated fails: an empty array, and an array whose record lacks
    [significance], are both admitted to the store without the [catch]
    branch being taken. *)
Lemma empty_or_partial_response_admitted :
  (signalsError (Parsed (records [])) initialPage = false /\
   allInnovations (run (Parsed (records [])) initialPage) = records [] /\
   display (errorMessage (run (Parsed (records [])) initialPage)) = CssDefault) /\
  (~ complete noSignificance /\
   signalsError (Parsed (records [noSignificance])) initialPage = false /\
   allInnovations (run (Parsed (records [noSignificance])) initialPage)
     = records [noSignificance] /\
   display (errorMessage (run (Parsed (records [noSignificance])) initialPage))
     = CssDefault).
Proof.
  split; [done|]. split; [|done].
  intros (_ & _ & _ & _ & _ & H). by apply H.
Qed.

(** C5.  When the request or the parse throws, [run] ends with the loader
    hidden and the error element shown with the fixed text; the store, the
    grid, the pills and the spotlight are what they were before [run], and
    no listener is registered.  From the initial page the store is still
    empty and stays empty whatever events follow. *)
Theorem run_failure_state (a : Acquisition) (p : Page) :
  a = ServiceFailure \/ a = NotJson ->
  (display (loader (run a p)) = DisplayNone /\
   display (errorMessage (run a p)) = DisplayBlock /\
   textContent (errorMessage (run a p)) = fixedMessage) /\
  (allInnovations (run a p) = allInnovations p /\
   dashboard (run a p) = dashboard p /\
   categoryFilters (run a p) = categoryFilters p /\
   spotlightContainer (run a p) = spotlightContainer p /\
   inputListener (run a p) = inputListener p /\
   keydownListener (run a p) = keydownListener p) /\
  (allInnovations (run a initialPage) = ArrayOf [] /\
   dashboard (run a initialPage) = [] /\
   spotlightContainer (run a initialPage) = None /\
   forall events, allInnovations (session a events) = ArrayOf []).
Proof.
  intros [-> | ->]; (split; [done|]); (split; [done|]);
    repeat (split; [done|]); intros events; unfold session;
    by rewrite events_store.
Qed.

Lemma run_failure_state_witness :
  display (loader (run NotJson initialPage)) = DisplayNone /\
  display (errorMessage (run NotJson initialPage)) = DisplayBlock /\
  textContent (errorMessage (run NotJson initialPage)) = fixedMessage.
Proof.
  apply (proj1 (run_failure_state NotJson initialPage (or_intror eq_refl))).
Defined.

(** C7.  When the [try] block of [run] completes on an array with at
    least one element, the spotlight shows the element at index 0 of the
    store; it completes, and the spotlight shows the first record, for every
    non-empty array of records whose properties are absent or strings of
    code units below 256.  Afterwards an event changes the spotlight only if
    it is a click on a card, and then the spotlight shows the record of that
    card. *)
Theorem spotlight_first_then_cards (p p' : Page) (first : option Item)
    (rest : list (option Item)) :
  (tryBlock (Parsed (ArrayOf (first :: rest))) p = Normal p' ->
   run (Parsed (ArrayOf (first :: rest))) p = p' /\
   elements (allInnovations p') !! 0 = Some first /\
   spotlightContainer p' = first) /\
  (forall i items,
     Forall plain (i :: items) ->
     spotlightContainer (run (Parsed (records (i :: items))) p) = Some i) /\
  (forall (q : Page) (e : Event),
     spotlightContainer (dispatch q e) <> spotlightContainer q ->
     exists k i, e = ClickCard k /\ dashboard q !! k = Some i /\
                 spotlightContainer (dispatch q e) = Some i).
Proof.
  assert (forall q els, tryBlock (Parsed (ArrayOf els)) p = Normal q ->
            elements (allInnovations q) = els /\
            spotlightContainer q
            = match els with
              | [] => spotlightContainer p
              | e :: _ => e
              end) as Hdone.
  { intros q els Ht.
    apply tryBlock_Normal in Ht
      as (items & sorted & Heq & _ & _ & _ & -> & _ & -> & _).
    unfold records in Heq. injection Heq as ->. split; [done|].
    by destruct items. }
  split; [|split].
  - intros Ht. split; [unfold run; by rewrite Ht|].
    destruct (Hdone _ _ Ht) as [-> ->]. done.
  - intros i items Hplain.
    assert (startsUp (records (i :: items))) as Hstart.
    { pose proof plain_cardable as Hp.
      exists (i :: items). split; [done|]. split.
      - eapply Forall_impl; [exact Hplain|]. intros x Hx. by apply Hp.
      - intros x [= <-]. apply Hp. by apply Forall_cons in Hplain as [? _]. }
    destruct (tryBlock_startsUp _ p Hstart) as [q Ht].
    unfold run. rewrite Ht. by destruct (Hdone _ _ Ht) as [_ ->].
  - intros q e Hchanged.
    by destruct (dispatch_spotlight q e) as [Hsame | Hcard].
Qed.

Lemma spotlight_first_then_cards_witness :
  run (Parsed (ArrayOf [Some noSignificance; Some noCategory])) initialPage
    = run (Parsed (records [noSignificance; noCategory])) initialPage /\
  elements (allInnovations
              (run (Parsed (records [noSignificance; noCategory])) initialPage))
    !! 0 = Some (Some noSignificance) /\
  spotlightContainer
    (run (Parsed (records [noSignificance; noCategory])) initialPage)
    = Some noSignificance.
Proof.
  apply (proj1 (spotlight_first_then_cards initialPage
                  (run (Parsed (records [noSignificance; noCategory])) initialPage)
                  (Some noSignificance) [Some noCategory])).
  vm_compute. reflexivity.
Defined.

(** C8.  The store is assigned in one place, after the parse: afterwards
    it is the parsed value (and what it was when [run] took the [catch]
    branch before the assignment).  No listener, no filter pass and no
    render pass assigns to it: after any sequence of events the store is the
    one [run] left, element by element. *)
Theorem store_written_once (a : Acquisition) (p : Page) (events : list Event) :
  allInnovations (run a p) =
    match a with
    | Parsed data => data
    | ServiceFailure | NotJson => allInnovations p
    end /\
  (forall q c p', allInnovations (settle (filterInnovations q c p')) = allInnovations p') /\
  (forall innovations p',
     allInnovations (settle (renderGrid innovations p')) = allInnovations p') /\
  (forall innovations p',
     allInnovations (settle (setupFilters innovations p')) = allInnovations p') /\
  allInnovations (foldl dispatch (run a p) events) = allInnovations (run a p) /\
  (forall k, elements (allInnovations (foldl dispatch (run a p) events)) !! k
             = elements (allInnovations (run a p)) !! k).
Proof.
  split; [apply run_store|].
  split; [intros q c p'; apply filterInnovations_frame|].
  split; [intros d p'; apply renderGrid_core|].
  split; [intros d p'; apply setupFilters_core|].
  split; [apply events_store|].
  intros k. by rewrite events_store.
Qed.
(** C9, as the code has it.  On a ["/"] keydown the listener focuses the
    search field, and prevents the default action, exactly when the search
    field is not the active element; what the event's target is plays no
    part.  For every other key, and when the search field has the focus,
    the page is left as it is. *)
Theorem slash_focuses_search (e : KeyboardEvent) (p : Page) :
  (key e = "/" /\ activeElement p <> SearchInput ->
   onKeydown e p = (setActiveElement SearchInput p, true)) /\
  (~ (key e = "/" /\ activeElement p <> SearchInput) ->
   onKeydown e p = (p, false)) /\
  (activeElement (onKeydown e p).1 <> activeElement p <->
   key e = "/" /\ activeElement p <> SearchInput).
Proof.
  unfold onKeydown.
  destruct (decide (key e = "/")) as [Hk|Hk];
    destruct (decide (activeElement p = SearchInput)) as [Hf|Hf].
  - rewrite (bool_decide_eq_true_2 _ Hk), (bool_decide_eq_true_2 _ Hf). simpl.
    repeat split; try tauto.
  - rewrite (bool_decide_eq_true_2 _ Hk), (bool_decide_eq_false_2 _ Hf). simpl.
    repeat split; try tauto. congruence.
  - rewrite (bool_decide_eq_false_2 _ Hk). simpl. repeat split; tauto.
  - rewrite (bool_decide_eq_false_2 _ Hk). simpl. repeat split; tauto.
Qed.

Lemma slash_focuses_search_witness :
  onKeydown (mkKeyboardEvent "/" NoTextField) initialPage
  = (setActiveElement SearchInput initialPage, true).
Proof.
  apply (proj1 (slash_focuses_search (mkKeyboardEvent "/" NoTextField) initialPage)).
  split; [reflexivity | discriminate].
Defined.

(** C9 as stated fails: with the focus in a text field other than the
    search field, and the event dispatched at that field, ["/"] moves the
    focus to the search field. *)
Lemma slash_in_other_text_field_moves_focus :
  let p := setActiveElement OtherTextField initialPage in
  let e := mkKeyboardEvent "/" OtherTextField in
  ~ (activeElement (onKeydown e p).1 = SearchInput /\
     activeElement p <> SearchInput <->
     activeElement p <> SearchInput /\ isTextField (target e) = false).
Proof.
  intros p e [Hfocus _].
  destruct Hfocus as [_ Htarget]; [|discriminate].
  split; [reflexivity | discriminate].
Qed.

(** C10.  For the empty array the [try] block completes normally: the
    guard [length > 0] is false, [updateSpotlight] is not called and the
    spotlight is left as it was; the store is the empty array, the loader is
    hidden and the error element is untouched.  Calling [updateSpotlight]
    with the missing first element would throw. *)
Theorem run_empty_array (p : Page) :
  (exists p', tryBlock (Parsed (ArrayOf [])) p = Normal p' /\
              run (Parsed (ArrayOf [])) p = p') /\
  signalsError (Parsed (ArrayOf [])) p = false /\
  spotlightContainer (run (Parsed (ArrayOf [])) p) = spotlightContainer p /\
  allInnovations (run (Parsed (ArrayOf [])) p) = ArrayOf [] /\
  dashboard (run (Parsed (ArrayOf [])) p) = [] /\
  display (loader (run (Parsed (ArrayOf [])) p)) = DisplayNone /\
  errorMessage (run (Parsed (ArrayOf [])) p) = errorMessage p /\
  updateSpotlight (firstElement (ArrayOf [])) p = Thrown p.
Proof.
  split; [eexists; split; reflexivity|].
  repeat (split; [reflexivity|]). reflexivity.
Qed.

(** ** The typed pipeline is the run-time one on conforming data *)

Section Conforming.

Lemma toItem_complete (r : Innovation) : complete (toItem r).
Proof. repeat split; discriminate. Qed.

Lemma toItem_plain (r : Innovation) : plain (toItem r).
Proof. plain_records. Qed.

Lemma toItem_cardable (r : Innovation) : cardable (toItem r).
Proof. repeat split; by eexists. Qed.

Lemma toItem_spotlightable (r : Innovation) : spotlightable (toItem r).
Proof. repeat split; by eexists. Qed.

Lemma Forall_toItem_cardable (l : list Innovation) :
  Forall cardable (toItem <$> l).
Proof. apply Forall_fmap, Forall_true. intros r. apply toItem_cardable. Qed.

Lemma keepsItem_toItem (nq c : string) (r : Innovation) :
  keepsItem nq (activeCategoryValue (Text c)) (toItem r)
  = Some (keeps nq (activeCategory c) r).
Proof.
  unfold keepsItem, keeps, matchesQuery, matchesCategory,
    activeCategoryValue, activeCategory. cbn.
  assert (forall x, bool_decide (Text (category r) = Text x)
                    = String.eqb (category r) x) as Heq.
  { intros x. destruct (String.eqb_spec (category r) x) as [->|Hne].
    - by apply bool_decide_eq_true.
    - apply bool_decide_eq_false. congruence. }
  assert (bool_decide (Text c = Text "all") = String.eqb c "all") as ->.
  { destruct (String.eqb_spec c "all") as [->|Hne].
    - by apply bool_decide_eq_true.
    - apply bool_decide_eq_false. congruence. }
  destruct (includes (toLowerCase (name r)) nq); cbn;
    destruct (String.eqb c "all"); cbn; by rewrite ?Heq.
Qed.

Lemma filterElements_total (f : Item -> option bool) (f' : Innovation -> bool)
    (l : list Innovation) :
  (forall x, f (toItem x) = Some (f' x)) ->
  filterElements f (Some <$> (toItem <$> l)) = Some (toItem <$> List.filter f' l).
Proof.
  intros Hf. induction l as [|x l IH]; [done|].
  rewrite !fmap_cons. cbn [filterElements]. cbn. rewrite Hf, IH. cbn.
  by destruct (f' x).
Qed.

(** On a store of conforming records the filter never throws and keeps
    the records [filtered] keeps. *)
Lemma filteredItems_toItem (q c : string) (catalog : list Innovation) :
  filteredItems q (Text c) (records (toItem <$> catalog))
  = Some (toItem <$> filtered q c catalog).
Proof.
  unfold filteredItems, filtered, records.
  apply filterElements_total. intros r. apply keepsItem_toItem.
Qed.

Lemma filterInnovations_toItem (q c : string) (catalog : list Innovation)
    (p : Page) :
  allInnovations p = records (toItem <$> catalog) ->
  exists p', filterInnovations q (Text c) p = Normal p' /\
             dashboard p' = toItem <$> filtered q c catalog /\
             (display (noResultsMessage p') = DisplayBlock <->
              filtered q c catalog = []).
Proof.
  intros Hstore. unfold filterInnovations.
  rewrite Hstore, filteredItems_toItem.
  rewrite (proj2 (renderGrid_Normal _ p (setDashboard (toItem <$> filtered q c catalog) p)))
    by (eexists; split; [done|]; split; [apply Forall_toItem_cardable | done]).
  cbn [andThen]. unfold showNoResults. cbn [print].
  eexists. split; [reflexivity|]. split; [done|].
  cbn. rewrite length_fmap.
  destruct (filtered q c catalog); cbn; split; done.
Qed.

Lemma setToArray_Text (seen xs : list string) :
  setToArray (Text <$> seen) (Text <$> xs) = Text <$> setToArray seen xs.
Proof.
  revert seen. induction xs as [|x xs IH]; intros seen; [done|].
  rewrite fmap_cons. cbn [setToArray].
  destruct (decide (x ∈ seen)) as [Hx|Hx].
  - rewrite decide_True by (by apply list_elem_of_fmap_2). apply IH.
  - rewrite decide_False.
    + rewrite fmap_cons. f_equal. apply (IH (x :: seen)).
    + intros (y & Hy & Hin)%list_elem_of_fmap. congruence.
Qed.

Lemma insertSorted_cons_Text (x y : string) (l : list Value) :
  insertSorted (Text x) (Text y :: l)
  = if String.leb x y then Text x :: Text y :: l
    else Text y :: insertSorted (Text x) l.
Proof. done. Qed.

Lemma insertSorted_Text (x : string) (l : list string) :
  exists l', insertSorted (Text x) (Text <$> l) = Text <$> l' /\ l' ≡ₚ x :: l /\
             (StronglySorted String.le l -> StronglySorted String.le l').
Proof.
  induction l as [|y l (l' & Heq & Hperm & Hsorted)].
  - exists [x]. split; [done|]. split; [done|]. intros _. by repeat constructor.
  - rewrite fmap_cons, insertSorted_cons_Text.
    destruct (String.leb x y) eqn:Hxy.
    + exists (x :: y :: l). split; [done|]. split; [done|]. intros Hs.
      assert (String.le x y) as Hle by (unfold String.le; by rewrite Hxy).
      constructor; [done|].
      apply StronglySorted_cons in Hs as [Hall _].
      constructor; [done|].
      eapply Forall_impl; [exact Hall|]. intros z Hz. by trans y.
    + rewrite Heq. exists (y :: l'). split; [done|]. split.
      * rewrite Hperm. apply Permutation_swap.
      * intros [Hall Hs]%StronglySorted_cons.
        constructor; [by apply Hsorted|].
        rewrite Hperm. constructor; [|done].
        destruct (total String.le x y) as [H|H]; [|done].
        unfold String.le in H. by rewrite Hxy in H.
Qed.

Lemma stableSort_Text (l : list string) :
  stableSort (Text <$> l) = Text <$> merge_sort String.le l.
Proof.
  assert (exists l', stableSort (Text <$> l) = Text <$> l' /\ l' ≡ₚ l /\
                     StronglySorted String.le l') as (l' & -> & Hperm & Hs).
  { unfold stableSort. induction l as [|x l (l' & Heq & Hperm & Hs)].
    - exists []. split; [done|]. split; [done|]. constructor.
    - rewrite fmap_cons. cbn [foldr]. rewrite Heq.
      destruct (insertSorted_Text x l') as (l'' & -> & Hperm' & Hs').
      exists l''. split; [done|]. split; [by rewrite Hperm', Hperm | by apply Hs']. }
  f_equal. apply (Sorted_unique String.le).
  - by apply StronglySorted_Sorted.
  - apply Sorted_merge_sort; apply _.
  - by rewrite Hperm, merge_sort_Permutation.
Qed.

Lemma merge_sort_short (l : list string) :
  (length l <= 1)%nat -> merge_sort String.le l = l.
Proof. destruct l as [|x [|y l]]; cbn; [done | done | lia]. Qed.

Lemma sortValues_Text (xs : list string) :
  sortValues (Text <$> xs) = Some (Text <$> merge_sort String.le xs).
Proof.
  unfold sortValues.
  assert (List.filter (fun v => negb (isAbsent v)) (Text <$> xs) = Text <$> xs)
    as ->.
  { induction xs as [|x xs IH]; [done|]. rewrite fmap_cons. cbn. by rewrite IH. }
  assert (List.filter isAbsent (Text <$> xs) = []) as ->.
  { induction xs as [|x xs IH]; [done|]. rewrite fmap_cons. cbn. exact IH. }
  rewrite !app_nil_r, length_fmap. case_decide.
  - by rewrite merge_sort_short.
  - assert (forallb canPrint (Text <$> xs) = true) as ->.
    { apply forallb_forall. intros v Hv%list_elem_of_In.
      by apply list_elem_of_fmap in Hv as (s & -> & _). }
    by rewrite stableSort_Text.
Qed.

(** On conforming records the pills are built from [categories]. *)
Lemma sortValues_categories (catalog : list Innovation) :
  sortValues (distinct (categoryProp <$> (toItem <$> catalog)))
  = Some (Text <$> categories catalog).
Proof.
  unfold categories, distinct.
  rewrite <- list_fmap_compose.
  change (categoryProp ∘ toItem) with (Text ∘ category).
  rewrite list_fmap_compose.
  rewrite (setToArray_Text [] (category <$> catalog)).
  apply sortValues_Text.
Qed.

(** The pills [setupFilters] leaves for a conforming store: the pills of
    the markup that carry [data-category="all"], then one per category. *)
Lemma setupFilters_pills (catalog : list Innovation) (p : Page) :
  exists p', setupFilters (records (toItem <$> catalog)) p = Normal p' /\
  categoryFilters p'
  = listenOnAllPill
      (List.filter isAllPill (categoryFilters p)
       ++ ((fun c => mkPill (Some c) false [Text c]) <$> categories catalog)).
Proof.
  eexists. split.
  - apply setupFilters_Normal. exists (toItem <$> catalog), (Text <$> categories catalog).
    split; [done|]. split; [|split; [apply sortValues_categories | reflexivity]].
    apply Forall_fmap, Forall_true. intros r. by eexists.
  - cbn [categoryFilters setCategoryFilters]. by rewrite <- list_fmap_compose.
Qed.

(** Typing into the search field of a page that holds conforming records
    renders what [filtered] returns for the text and the active pill. *)
Lemma input_renders_filtered (text : string) (catalog : list Innovation)
    (p : Page) :
  allInnovations p = records (toItem <$> catalog) ->
  inputListener p = true ->
  dashboard (dispatch p (Input text))
  = toItem <$> filtered text (activePillCategory (categoryFilters p)) catalog.
Proof.
  intros Hstore Hlistener. simpl. rewrite Hlistener. unfold onInput.
  destruct (filterInnovations_toItem text
              (activePillCategory (categoryFilters p)) catalog
              (setSearchValue text p) Hstore) as (p' & Hrun & Hgrid & _).
  simpl in *. by rewrite Hrun.
Qed.

End Conforming.

(** The success scenario: three conforming records of categories Energy,
    Medicine, Energy give the pills all, Energy, Medicine, three cards in
    the order of the response, and the first record in the spotlight. *)
Example run_three_records :
  let p := run (Parsed (records threeRecords)) initialPage in
  dataCategory <$> categoryFilters p = [Some "all"; Some "Energy"; Some "Medicine"] /\
  dashboard p = threeRecords /\
  spotlightContainer p = threeRecords !! 0 /\
  display (loader p) = DisplayNone.
Proof. vm_compute. repeat split. Qed.
(** * Further properties of the code *)

(** ** The query as the user types it *)

Section QueryFacts.

Local Arguments String.append !_ _ / : assert.

Lemma str_app_assoc (a b c : string) : (a +:+ b) +:+ c = a +:+ (b +:+ c).
Proof. induction a as [|x a IH]; simpl; [done | by rewrite IH]. Qed.

Lemma str_app_nil_r (s : string) : s +:+ "" = s.
Proof. induction s as [|a s IH]; simpl; [done | by rewrite IH]. Qed.

Lemma Substring_trans (a b c : string) :
  Substring a b -> Substring b c -> Substring a c.
Proof.
  intros (p1 & q1 & ->) (p2 & q2 & ->).
  exists (p2 +:+ p1), (q1 +:+ q2). by rewrite !str_app_assoc.
Qed.

Lemma toLowerCase_app (a b : string) :
  toLowerCase (a +:+ b) = toLowerCase a +:+ toLowerCase b.
Proof. induction a as [|x a IH]; simpl; [done | by rewrite IH]. Qed.

Lemma Substring_toLowerCase (t s : string) :
  Substring t s -> Substring (toLowerCase t) (toLowerCase s).
Proof.
  intros (pre & post & ->).
  exists (toLowerCase pre), (toLowerCase post). by rewrite !toLowerCase_app.
Qed.

Lemma AllWhiteSpace_toLowerCase (s : string) :
  AllWhiteSpace s -> AllWhiteSpace (toLowerCase s).
Proof.
  unfold AllWhiteSpace. induction s as [|a s IH]; simpl; [done|].
  intros [Ha Hs]%Forall_cons. constructor; [|by apply IH].
  by rewrite isWhiteSpace_lowerUnit.
Qed.

Lemma trimStart_white (ws s : string) :
  AllWhiteSpace ws -> trimStart (ws +:+ s) = trimStart s.
Proof.
  unfold AllWhiteSpace. induction ws as [|a ws IH]; simpl; [done|].
  intros [Ha Hs]%Forall_cons. rewrite Ha. by apply IH.
Qed.

Lemma trimStart_white_only (ws : string) : AllWhiteSpace ws -> trimStart ws = "".
Proof.
  unfold AllWhiteSpace. induction ws as [|a ws IH]; simpl; [done|].
  intros [Ha Hs]%Forall_cons. rewrite Ha. by apply IH.
Qed.

Lemma trimEnd_white_only (ws : string) : AllWhiteSpace ws -> trimEnd ws = "".
Proof.
  unfold AllWhiteSpace. induction ws as [|a ws IH]; simpl; [done|].
  intros [Ha Hs]%Forall_cons. by rewrite (IH Hs), Ha.
Qed.

Lemma trimEnd_white (s ws : string) :
  AllWhiteSpace ws -> trimEnd (s +:+ ws) = trimEnd s.
Proof.
  intros Hws. induction s as [|a s IH]; simpl.
  - by apply trimEnd_white_only.
  - by rewrite IH.
Qed.

Lemma trim_white_end (s ws : string) :
  AllWhiteSpace ws -> trim (s +:+ ws) = trim s.
Proof.
  intros Hws. unfold trim. induction s as [|a s IH]; simpl.
  - by rewrite trimStart_white_only.
  - destruct (isWhiteSpace a); [exact IH|].
    by apply (trimEnd_white (String a s)).
Qed.

Lemma trim_padding (front s back : string) :
  AllWhiteSpace front -> AllWhiteSpace back ->
  trim (front +:+ s +:+ back) = trim s.
Proof.
  intros Hf Hb. unfold trim at 1. rewrite trimStart_white by done.
  by apply trim_white_end.
Qed.

Lemma trimStart_toLowerCase (s : string) :
  trimStart (toLowerCase s) = toLowerCase (trimStart s).
Proof.
  induction s as [|a s IH]; simpl; [done|].
  rewrite isWhiteSpace_lowerUnit. by destruct (isWhiteSpace a).
Qed.

Lemma trimEnd_toLowerCase (s : string) :
  trimEnd (toLowerCase s) = toLowerCase (trimEnd s).
Proof.
  induction s as [|a s IH]; simpl; [done|].
  rewrite IH, isWhiteSpace_lowerUnit.
  destruct (trimEnd s); simpl; [by destruct (isWhiteSpace a) | done].
Qed.

(** Lower-casing and trimming can be done in either order. *)
Lemma trim_toLowerCase (s : string) :
  trim (toLowerCase s) = toLowerCase (trim s).
Proof. unfold trim. by rewrite trimStart_toLowerCase, trimEnd_toLowerCase. Qed.

Lemma includes_narrow (s t t' : string) :
  Substring t' t -> includes s t = true -> includes s t' = true.
Proof. rewrite !includes_Substring. apply Substring_trans. Qed.

Lemma bool_filter_mono {A} (f g : A -> bool) (l : list A) :
  (forall x, f x = true -> g x = true) ->
  List.filter f l `sublist_of` List.filter g l.
Proof.
  intros Hfg. induction l as [|x l IH]; simpl; [constructor|].
  destruct (f x) eqn:Hf.
  - rewrite (Hfg x Hf). by constructor.
  - destruct (g x); [by constructor | done].
Qed.

Lemma bool_filter_comm {A} (f g : A -> bool) (l : list A) :
  List.filter f (List.filter g l) = List.filter g (List.filter f l).
Proof.
  induction l as [|x l IH]; simpl; [done|].
  destruct (f x) eqn:Hf, (g x) eqn:Hg; simpl; rewrite ?Hf, ?Hg, ?IH; done.
Qed.

End QueryFacts.

(** X1.  Typing more narrows the grid: when the normalized form of [q']
    occurs in the normalized form of [q], the records kept for [q] are a
    subsequence of those kept for [q'], for the same category. *)
Theorem filtered_narrows_with_query (q q' c : string) (catalog : list Innovation) :
  Substring (normalizedQuery q') (normalizedQuery q) ->
  filtered q c catalog `sublist_of` filtered q' c catalog.
Proof.
  intros Hsub. unfold filtered. apply bool_filter_mono.
  intros r. unfold keeps, matchesQuery.
  rewrite !andb_true_iff, !orb_true_iff.
  intros [[Hn|Hd] Hc]; split; eauto using includes_narrow.
Qed.

Lemma filtered_narrows_with_query_witness :
  filtered "Gene Ed" "all" [crispr; card "Genome" "" "Medicine"]
    `sublist_of` filtered " gen" "all" [crispr; card "Genome" "" "Medicine"].
Proof.
  apply filtered_narrows_with_query.
  exists "", "e ed". reflexivity.
Defined.

(** X2.  A category only removes records: what is kept for a query and a
    category is a subsequence of what is kept for the query under ["all"],
    and under ["all"] and under the empty category the results are the
    same. *)
Theorem filtered_narrows_with_category (q c : string) (catalog : list Innovation) :
  filtered q c catalog `sublist_of` filtered q "all" catalog /\
  filtered q "" catalog = filtered q "all" catalog.
Proof.
  unfold filtered. split.
  - apply bool_filter_mono. intros r. unfold keeps.
    rewrite !andb_true_iff. intros [Hq _]. done.
  - apply filter_ext. intros r. unfold keeps. simpl. done.
Qed.

(** X3.  Two filter passes commute: filtering by [(q, c)] what was kept
    for [(q', c')] keeps the same records, in the same order, as the passes
    in the other order; and they are the records both passes keep. *)
Theorem filtered_commutes (q c q' c' : string) (catalog : list Innovation) :
  filtered q c (filtered q' c' catalog) = filtered q' c' (filtered q c catalog) /\
  (forall r, r ∈ filtered q c (filtered q' c' catalog) <->
             r ∈ filtered q c catalog /\ r ∈ filtered q' c' catalog).
Proof.
  unfold filtered. split; [apply bool_filter_comm|].
  intros r. rewrite !elem_of_bool_filter. tauto.
Qed.

Lemma filtered_commutes_witness :
  crispr ∈ filtered "gene" "all" (filtered "" "Medicine" [crispr]) <->
  crispr ∈ filtered "gene" "all" [crispr] /\ crispr ∈ filtered "" "Medicine" [crispr].
Proof.
  apply (proj2 (filtered_commutes "gene" "all" "" "Medicine" [crispr])).
Defined.

(** X4.  White space around the query and the case of its letters do not
    matter: the query padded with white space, and the query in lower case,
    keep the same records as the query itself. *)
Theorem filtered_ignores_padding_and_case (front q back c : string)
    (catalog : list Innovation) :
  AllWhiteSpace front -> AllWhiteSpace back ->
  filtered (front +:+ q +:+ back) c catalog = filtered q c catalog /\
  filtered (toLowerCase q) c catalog = filtered q c catalog.
Proof.
  intros Hf Hb. unfold filtered, normalizedQuery.
  rewrite !toLowerCase_app, toLowerCase_idemp.
  by rewrite trim_padding by (by apply AllWhiteSpace_toLowerCase).
Qed.

Lemma filtered_ignores_padding_and_case_witness :
  filtered ("  " +:+ "CRISPR" +:+ " ") "all" [crispr] = filtered "CRISPR" "all" [crispr] /\
  filtered (toLowerCase "CRISPR") "all" [crispr] = filtered "CRISPR" "all" [crispr].
Proof.
  apply filtered_ignores_padding_and_case.
  - repeat constructor.
  - repeat constructor.
Defined.

(** X5.  On strings of code units below 256, where [toLowerCase] works
    unit by unit, a record of the catalog whose name or description contains
    the trimmed query as typed is kept under ["all"]: matching is on
    lower-cased text. *)
Theorem filtered_keeps_verbatim_match (q : string) (catalog : list Innovation)
    (r : Innovation) :
  r ∈ catalog ->
  Substring (trim q) (name r) \/ Substring (trim q) (description r) ->
  r ∈ filtered q "all" catalog.
Proof.
  intros Hin Hsub. unfold filtered.
  apply elem_of_bool_filter. split; [done|].
  apply keeps_true. split; [|by left].
  unfold normalizedQuery. rewrite trim_toLowerCase.
  destruct Hsub as [H|H]; [left|right]; by apply Substring_toLowerCase.
Qed.

Lemma filtered_keeps_verbatim_match_witness :
  crispr ∈ filtered "  Gene Edit" "all" [crispr].
Proof.
  apply filtered_keeps_verbatim_match.
  - apply list_elem_of_here.
  - left. exists "CRISPR ", "ing". reflexivity.
Defined.

(** X6.  With a query that is empty after trimming, the pill of a category
    that occurs in the catalog never gives an empty grid; and unless the
    category is ["all"] or the empty string, every record shown has that
    category. *)
Theorem category_pill_not_empty (q c : string) (catalog : list Innovation) :
  normalizedQuery q = "" ->
  c ∈ categories catalog ->
  filtered q c catalog <> [] /\
  (c <> "all" -> c <> "" ->
   Forall (fun r => category r = c) (filtered q c catalog)).
Proof.
  intros Hq (r & Hr & Hc)%elem_of_categories. unfold filtered. split.
  - assert (r ∈ List.filter (keeps (normalizedQuery q) (activeCategory c)) catalog)
      as Hin.
    { apply elem_of_bool_filter. split; [done|]. apply keeps_true.
      split; [|by right; right]. left. rewrite Hq. exists "", (toLowerCase (name r)).
      by destruct (toLowerCase (name r)). }
    intros Hnil. rewrite Hnil in Hin. by apply elem_of_nil in Hin.
  - intros Hall Hempty. apply Forall_forall. intros r' Hr'.
    apply elem_of_bool_filter in Hr' as [_ Hk].
    apply keeps_true in Hk as [_ [?|[?|?]]]; done.
Qed.

Lemma category_pill_not_empty_witness :
  filtered "  " "Energy" spaceEnergyCatalog <> [].
Proof.
  apply (category_pill_not_empty "  " "Energy" spaceEnergyCatalog).
  - reflexivity.
  - vm_compute. apply list_elem_of_further, list_elem_of_here.
Defined.


(** ** The filter pass on objects *)

Section PassFacts.

Lemma fmap_Some_sublist (a b : list Item) :
  Some <$> a `sublist_of` Some <$> b -> a `sublist_of` b.
Proof.
  revert a. induction b as [|y b IH]; intros a.
  - rewrite fmap_nil. intros Ha%sublist_nil_r.
    apply fmap_nil_inv in Ha as ->. constructor.
  - rewrite fmap_cons. intros [Ha|(l' & Ha & Hl')]%sublist_cons_r.
    + apply sublist_cons. by apply IH.
    + destruct a as [|x a]; [done|]. rewrite fmap_cons in Ha.
      injection Ha as -> <-. apply sublist_skip. by apply IH.
Qed.

Lemma prefix_sublist {A} (a b : list A) : a `prefix_of` b -> a `sublist_of` b.
Proof. intros [k ->]. by apply sublist_inserts_r. Qed.

(** When some kept record cannot be made a card, [renderGrid] throws with
    only the cards before it on the grid. *)
Lemma renderGrid_not_cardable (kept : list Item) (p : Page) :
  ~ Forall cardable kept ->
  exists p', renderGrid (records kept) p = Thrown p' /\
             dashboard p' `prefix_of` kept /\ dashboard p' <> kept /\
             sameButGrid p p'.
Proof.
  intros Hnot.
  destruct (renderGrid_settle (records kept) p) as (Hpre & Hall & Hsame).
  destruct (renderGrid (records kept) p) as [p'|p'] eqn:Hr; cbn [settle] in *.
  - apply renderGrid_Normal in Hr as (items & Heq & Hcards & _).
    unfold records in Heq. injection Heq as Heq.
    apply (inj (fmap Some)) in Heq as <-. done.
  - exists p'. split; [done|]. split; [by apply fmap_Some_prefix|].
    split; [|done]. intros Heq. by rewrite Heq in Hall.
Qed.

End PassFacts.

(** X7.  At run time a filter pass throws exactly when the store is not
    an array, when an element is [null], when a record's [name] is not a
    string (absent, a number, any other value), or when a record's name does
    not contain the query and its [description] is not a string; the
    description is read only when the name does not match, and the other
    four properties play no part.  On an array of records whose name and
    description are strings the pass returns a subsequence of the
    records. *)
Theorem filteredItems_throws_iff (q : string) (c : Value) (store : Stored) :
  (filteredItems q c store = None <->
   store = NotArray \/
   Exists (fun e => e = None \/
                    exists o, e = Some o /\ throwsOn (normalizedQuery q) o)
          (elements store)) /\
  (forall items,
     store = records items -> Forall searchable items ->
     exists kept, filteredItems q c store = Some kept /\ kept `sublist_of` items).
Proof.
  split.
  - destruct store as [|els]; cbn [filteredItems elements].
    + split; [by left | done].
    + rewrite filterElements_None. split.
      * intros Hex. right. eapply Exists_impl; [exact Hex|].
        intros e [->|(o & -> & Ho)]; [by left|]. right. exists o.
        split; [done|]. by apply keepsItem_None in Ho.
      * intros [?|Hex]; [done|]. eapply Exists_impl; [exact Hex|].
        intros e [->|(o & -> & Ho)]; [by left|]. right. exists o.
        split; [done|].
        by apply (keepsItem_None _ (activeCategoryValue c)).
  - intros items -> Hall. unfold records. cbn [filteredItems].
    destruct (filterElements _ (Some <$> items)) as [kept|] eqn:Hf.
    + exists kept. split; [done|].
      by apply fmap_Some_sublist, (filterElements_sublist _ _ _ Hf).
    + exfalso. apply filterElements_None, Exists_exists in Hf
        as (e & He & [->|(o & -> & Ho)]).
      * by apply list_elem_of_fmap in He as (? & ? & _).
      * apply list_elem_of_fmap in He as (o' & [= <-] & Ho').
        apply keepsItem_None in Ho.
        eapply searchable_not_throwsOn; [|exact Ho].
        rewrite Forall_forall in Hall. by apply Hall.
Qed.

Lemma filteredItems_throws_iff_witness :
  exists kept,
    filteredItems "las" (Text "Energy") (records [noSignificance; noCategory])
      = Some kept /\
    kept `sublist_of` [noSignificance; noCategory].
Proof.
  apply (proj2 (filteredItems_throws_iff "las" (Text "Energy")
                  (records [noSignificance; noCategory]))
           [noSignificance; noCategory] eq_refl).
  repeat constructor; eexists; reflexivity.
Defined.

(** X8.  What one call of [filterInnovations] does to the page.  If the
    callback throws, the call throws with the page exactly as before.  If a
    kept record cannot be made a card, the call throws with only the cards
    before that record on the grid and the "no results" element untouched.
    Otherwise the grid shows the kept records, the "no results" element is
    shown when there is none and hidden when there is one, and the call
    completes exactly when the category can be printed.  In no case does
    anything else on the page change. *)
Theorem filter_pass_outcome (q : string) (c : Value) (p : Page) :
  sameOutsideGrid p (settle (filterInnovations q c p)) /\
  (filteredItems q c (allInnovations p) = None ->
   filterInnovations q c p = Thrown p) /\
  (forall kept,
     filteredItems q c (allInnovations p) = Some kept ->
     ~ Forall cardable kept ->
     exists p', filterInnovations q c p = Thrown p' /\
                dashboard p' `prefix_of` kept /\ dashboard p' <> kept /\
                noResultsMessage p' = noResultsMessage p) /\
  (forall kept,
     filteredItems q c (allInnovations p) = Some kept ->
     Forall cardable kept ->
     dashboard (settle (filterInnovations q c p)) = kept /\
     display (noResultsMessage (settle (filterInnovations q c p)))
       = (if decide (kept = []) then DisplayBlock else DisplayNone) /\
     ((exists p', filterInnovations q c p = Normal p') <-> is_Some (print c))).
Proof.
  split; [apply filterInnovations_frame|]. unfold filterInnovations.
  split; [by intros ->|]. split.
  - intros kept -> Hnot.
    destruct (renderGrid_not_cardable kept p Hnot) as (p' & -> & Hpre & Hne & _ & Hno).
    by exists p'.
  - intros kept -> Hall.
    rewrite (proj2 (renderGrid_Normal (records kept) p (setDashboard kept p)))
      by (by exists kept).
    cbn [andThen]. unfold showNoResults.
    destruct (print c) as [text|]; cbn [settle].
    + split; [done|]. split; [cbn; by destruct kept|].
      split; intros _; by eexists.
    + split; [done|]. split; [cbn; by destruct kept|].
      split; by intros [? ?].
Qed.

Lemma filter_pass_outcome_witness :
  exists p',
    filterInnovations "" Absent
      (setAllInnovations (records [noSignificance; badImageQuery]) initialPage)
    = Thrown p' /\
    dashboard p' `prefix_of` [noSignificance; badImageQuery] /\
    dashboard p' <> [noSignificance; badImageQuery] /\
    noResultsMessage p' = noResultsMessage
      (setAllInnovations (records [noSignificance; badImageQuery]) initialPage).
Proof.
  apply (proj1 (proj2 (proj2 (filter_pass_outcome "" Absent
           (setAllInnovations (records [noSignificance; badImageQuery]) initialPage))))
           [noSignificance; badImageQuery]).
  - reflexivity.
  - intros Hall. apply Forall_cons in Hall as [_ Hall].
    apply Forall_cons in Hall as [([v Hv] & _) _]. discriminate.
Defined.

(** ** Sessions *)

Section SessionFacts.

Lemma filter_consistent (q : string) (c : Value) (p : Page) :
  consistent p -> consistent (settle (filterInnovations q c p)).
Proof.
  intros [Hgrid Hspot].
  destruct (filterInnovations_settle q c p)
    as ((Hstore & _ & _ & _ & Hs & _) & [-> | (kept & Hf & Hpre & _)]);
    [done|].
  unfold consistent. rewrite Hstore, Hs. split; [|done].
  trans (Some <$> kept); [by apply fmap_sublist, prefix_sublist|].
  unfold filteredItems in Hf. destruct (allInnovations p) as [|els]; [done|].
  by apply (filterElements_sublist _ _ _ Hf).
Qed.

Lemma pill_listeners_consistent (k : nat) (cats : list Value) (p : Page) :
  consistent p ->
  consistent (foldl (fun p cat => settle (onPillClick k cat p)) p cats).
Proof.
  revert p. induction cats as [|c cats IH]; intros p Hp; simpl; [done|].
  apply IH. unfold onPillClick. by apply filter_consistent.
Qed.

Lemma dispatch_consistent (p : Page) (e : Event) :
  consistent p -> consistent (dispatch p e).
Proof.
  intros Hp. destruct e as [text|k|k|k|f]; simpl.
  - destruct (inputListener p); [|done]. unfold onInput.
    by apply filter_consistent.
  - destruct (categoryFilters p !! k); [|done].
    by apply pill_listeners_consistent.
  - destruct (dashboard p !! k) as [i|] eqn:Hk; [|done].
    destruct (updateSpotlight_settle (Some i) p) as [-> | (i' & [= <-] & _ & ->)];
      [done|].
    destruct Hp as [Hgrid Hspot]. split; [done|].
    intros r [= <-]. eapply elem_of_sublist; [|exact Hgrid].
    apply list_elem_of_fmap_2. by eapply list_elem_of_lookup_2.
  - destruct (keydownListener p); [|done]. unfold onKeydown. by case_match.
  - done.
Qed.

Lemma events_consistent (p : Page) (events : list Event) :
  consistent p -> consistent (foldl dispatch p events).
Proof.
  revert p. induction events as [|e events IH]; intros p Hp; simpl; [done|].
  by apply IH, dispatch_consistent.
Qed.

(** The statements after the loader is hidden keep the grid and the
    spotlight within the store, however far they get. *)
Lemma afterLoader_consistent (p : Page) :
  consistent p -> consistent (settle (afterLoader p)).
Proof.
  intros [Hgrid Hspot]. unfold afterLoader. rewrite andThen_settle.
  pose proof (setupFilters_settle (allInnovations p) p) as H1.
  unfold sameButPills in H1.
  destruct H1 as (Hs1 & _ & _ & _ & Hd1 & Hsp1 & _).
  destruct (setupFilters (allInnovations p) p) as [p1|p1]; cbn [settle] in *.
  2: { split; [by rewrite Hs1, Hd1 | by rewrite Hs1, Hsp1]. }
  rewrite andThen_settle.
  destruct (renderGrid_settle (allInnovations p1) p1)
    as (Hpre & _ & (Hs2 & _ & _ & _ & Hsp2 & _) & _).
  assert (consistent (settle (renderGrid (allInnovations p1) p1))) as Hc2.
  { split.
    - rewrite Hs2. by apply prefix_sublist.
    - rewrite Hs2, Hsp2, Hs1, Hsp1. exact Hspot. }
  destruct (renderGrid (allInnovations p1) p1) as [p2|p2]; cbn [settle] in *;
    [|done].
  rewrite andThen_settle.
  destruct (decide (0 < length (elements (allInnovations p2)))); [|done].
  assert (consistent (settle (updateSpotlight (firstElement (allInnovations p2)) p2)))
    as Hc3.
  { destruct (updateSpotlight_settle (firstElement (allInnovations p2)) p2)
      as [-> | (i & Hi & _ & ->)]; [done|].
    destruct Hc2 as [Hg _]. split; [done|]. intros r [= <-].
    cbn [allInnovations setSpotlightContainer].
    unfold firstElement in Hi.
    destruct (elements (allInnovations p2)) as [|e els]; [done|].
    cbn in Hi. subst e. apply list_elem_of_here. }
  by destruct (updateSpotlight _ p2).
Qed.

(** [run] on a page whose grid and spotlight are still empty. *)
Lemma run_consistent (a : Acquisition) (p : Page) :
  dashboard p = [] -> spotlightContainer p = None -> consistent (run a p).
Proof.
  intros Hgrid Hspot.
  assert (forall v, consistent (setLoader (withDisplay DisplayNone (loader p))
                                          (setAllInnovations v p))) as Hp.
  { intros v. split; cbn; [rewrite Hgrid; apply sublist_nil_l | by rewrite Hspot]. }
  assert (consistent p) as Hp0.
  { split; [rewrite Hgrid; apply sublist_nil_l | by rewrite Hspot]. }
  destruct a as [| |data]; [done | done |].
  rewrite run_settle, tryBlock_parsed.
  pose proof (afterLoader_consistent _ (Hp data)) as Hc.
  by destruct (afterLoader _).
Qed.

Lemma events_spotlight_shown (p : Page) (events : list Event) :
  is_Some (spotlightContainer p) ->
  is_Some (spotlightContainer (foldl dispatch p events)).
Proof.
  revert p. induction events as [|e events IH]; intros p Hp; simpl; [done|].
  apply IH. destruct (dispatch_spotlight p e) as [-> | (k & i & _ & _ & ->)]; eauto.
Qed.

End SessionFacts.

(** X9.  Starting from a page whose grid and spotlight are empty, after
    [run], however it ended, and any sequence of events the grid shows a
    subsequence of the store: only elements of the parsed array, each at
    most as often as it occurs there, in the order of the array. *)
Theorem grid_always_subsequence_of_store (a : Acquisition) (p : Page)
    (events : list Event) :
  dashboard p = [] -> spotlightContainer p = None ->
  Some <$> dashboard (foldl dispatch (run a p) events)
    `sublist_of` elements (allInnovations (foldl dispatch (run a p) events)).
Proof.
  intros Hgrid Hspot.
  by apply (events_consistent (run a p) events), run_consistent.
Qed.

Lemma grid_always_subsequence_of_store_witness :
  Some <$> dashboard (session (Parsed (records threeRecords))
                              [Input "a"; ClickPill 1; ClickCard 0])
    `sublist_of`
  elements (allInnovations (session (Parsed (records threeRecords))
                                    [Input "a"; ClickPill 1; ClickCard 0])).
Proof.
  apply (grid_always_subsequence_of_store (Parsed (records threeRecords))
           initialPage [Input "a"; ClickPill 1; ClickCard 0]); reflexivity.
Defined.

(** X10.  Starting from a page whose grid and spotlight are empty, the
    spotlight only ever shows an element of the store; and once the [try]
    block of [run] has completed on a non-empty array it always shows one:
    no event empties it. *)
Theorem spotlight_always_of_store (a : Acquisition) (p : Page)
    (events : list Event) :
  dashboard p = [] -> spotlightContainer p = None ->
  (forall r, spotlightContainer (foldl dispatch (run a p) events) = Some r ->
             Some r ∈ elements (allInnovations (foldl dispatch (run a p) events))) /\
  (forall first rest, a = Parsed (ArrayOf (first :: rest)) ->
     signalsError a p = false ->
     is_Some (spotlightContainer (foldl dispatch (run a p) events))).
Proof.
  intros Hgrid Hspot. split.
  - by apply (events_consistent (run a p) events), run_consistent.
  - intros first rest -> Herr. apply events_spotlight_shown.
    unfold signalsError in Herr. rewrite run_settle.
    destruct (tryBlock _ p) as [p'|p'] eqn:Ht; [|done].
    destruct (tryBlock_Normal _ _ _ Ht)
      as (items & sorted & Hd & _ & _ & _ & _ & _ & Hs & _).
    destruct items as [|i items]; [done|]. rewrite Hs. by eexists.
Qed.

Lemma spotlight_always_of_store_witness :
  is_Some (spotlightContainer
             (foldl dispatch
                (run (Parsed (records [noCategory; noSignificance])) initialPage)
                [ClickPill 1; ClickCard 0; Input "zzz"])).
Proof.
  apply (proj2 (spotlight_always_of_store
                  (Parsed (records [noCategory; noSignificance]))
                  initialPage [ClickPill 1; ClickCard 0; Input "zzz"]
                  eq_refl eq_refl) (Some noCategory) [Some noSignificance]).
  - reflexivity.
  - vm_compute. reflexivity.
Defined.

(** ** Pills *)

Section PillFacts.

Lemma activate_deactivate (pill : Pill) : activate (deactivate pill) = activate pill.
Proof. done. Qed.

Lemma selectPill_nil (k : nat) : selectPill k [] = [].
Proof. by destruct k. Qed.

Lemma selectPill_0 (pill : Pill) (pills : list Pill) :
  selectPill 0 (pill :: pills) = activate pill :: (deactivate <$> pills).
Proof. done. Qed.

Lemma selectPill_S (k : nat) (pill : Pill) (pills : list Pill) :
  selectPill (S k) (pill :: pills) = deactivate pill :: selectPill k pills.
Proof. done. Qed.

Lemma deactivate_idemp (pills : list Pill) :
  deactivate <$> (deactivate <$> pills) = deactivate <$> pills.
Proof. rewrite <- list_fmap_compose. by apply list_fmap_ext. Qed.

Lemma selectPill_idemp (k : nat) (pills : list Pill) :
  selectPill k (selectPill k pills) = selectPill k pills.
Proof.
  revert k. induction pills as [|pill pills IH]; intros k.
  - by rewrite !selectPill_nil.
  - destruct k as [|k].
    + rewrite !selectPill_0. by rewrite deactivate_idemp.
    + rewrite !selectPill_S. by rewrite IH.
Qed.

(** After the move, the pill at [k] is active and no other. *)
Lemma selectPill_lookup (k j : nat) (pills : list Pill) (pill' : Pill) :
  selectPill k pills !! j = Some pill' ->
  exists pill, pills !! j = Some pill /\
               dataCategory pill' = dataCategory pill /\
               clickListeners pill' = clickListeners pill /\
               active pill' = bool_decide (j = k).
Proof.
  revert k j. induction pills as [|pill pills IH]; intros k j.
  - by rewrite selectPill_nil.
  - destruct k as [|k], j as [|j].
    + rewrite selectPill_0. intros [= <-]. by exists pill.
    + rewrite selectPill_0. simpl. rewrite list_lookup_fmap.
      destruct (pills !! j) as [x|] eqn:Hj; [|done].
      intros [= <-]. by exists x.
    + rewrite selectPill_S. intros [= <-]. by exists pill.
    + rewrite selectPill_S. simpl. intros Hj.
      destruct (IH k j Hj) as (x & Hx & Hd & Hc & Ha).
      exists x. repeat split; try done. rewrite Ha.
      apply bool_decide_ext. lia.
Qed.

Lemma find_active_deactivated (pills : list Pill) :
  List.find active (deactivate <$> pills) = None.
Proof. induction pills as [|pill pills IH]; [done | exact IH]. Qed.

Lemma find_active_selectPill (k : nat) (pills : list Pill) (pill : Pill) :
  pills !! k = Some pill ->
  List.find active (selectPill k pills) = Some (activate pill).
Proof.
  revert k. induction pills as [|x pills IH]; intros k; [done|].
  destruct k as [|k].
  - intros [= ->]. by rewrite selectPill_0.
  - rewrite selectPill_S. simpl. apply IH.
Qed.

Lemma selectPill_labels (k : nat) (pills : list Pill) :
  dataCategory <$> selectPill k pills = dataCategory <$> pills /\
  clickListeners <$> selectPill k pills = clickListeners <$> pills.
Proof.
  revert k. induction pills as [|x pills IH]; intros k.
  - by rewrite selectPill_nil.
  - destruct k as [|k].
    + rewrite selectPill_0, !fmap_cons, <- !list_fmap_compose. done.
    + rewrite selectPill_S, !fmap_cons.
      destruct (IH k) as [-> ->]. done.
Qed.

Lemma onPillClick_pills (k : nat) (c : Value) (p : Page) :
  categoryFilters (settle (onPillClick k c p)) = selectPill k (categoryFilters p).
Proof.
  unfold onPillClick.
  by destruct (filterInnovations_frame (searchValue p) c
                 (setCategoryFilters
                    (alter activate k (deactivate <$> categoryFilters p)) p))
    as (_ & _ & _ & -> & _).
Qed.

Lemma pill_listeners_pills (k : nat) (cats : list Value) (p : Page) :
  cats <> [] ->
  categoryFilters (foldl (fun p cat => settle (onPillClick k cat p)) p cats)
  = selectPill k (categoryFilters p).
Proof.
  intros Hne.
  assert (forall rest p', categoryFilters p' = selectPill k (categoryFilters p) ->
            categoryFilters
              (foldl (fun p cat => settle (onPillClick k cat p)) p' rest)
            = selectPill k (categoryFilters p)) as Hrest.
  { induction rest as [|c rest IH]; intros p' Hp'; simpl; [done|].
    apply IH. by rewrite onPillClick_pills, Hp', selectPill_idemp. }
  destruct cats as [|c cats]; [done|]. simpl.
  apply Hrest, onPillClick_pills.
Qed.

Lemma click_grid (k : nat) (arg : Value) (p : Page) (pill : Pill)
    (kept : list Item) :
  categoryFilters p !! k = Some pill ->
  clickListeners pill = [arg] ->
  filteredItems (searchValue p) arg (allInnovations p) = Some kept ->
  Forall cardable kept ->
  dashboard (dispatch p (ClickPill k)) = kept.
Proof.
  intros Hk Hl Hf Hc. cbn [dispatch]. rewrite Hk, Hl. cbn [foldl].
  unfold onPillClick. by apply filter_grid.
Qed.

Lemma click_then_input_grid (k : nat) (arg : Value) (d text : string)
    (p : Page) (pill : Pill) (kept : list Item) :
  categoryFilters p !! k = Some pill ->
  dataCategory pill = Some d ->
  clickListeners pill = [arg] ->
  inputListener p = true ->
  filteredItems text (Text (if truthy d then d else "all")) (allInnovations p)
    = Some kept ->
  Forall cardable kept ->
  dashboard (dispatch (dispatch p (ClickPill k)) (Input text)) = kept.
Proof.
  intros Hk Hd Hl Hin Hf Hc.
  assert (dispatch p (ClickPill k) = settle (onPillClick k arg p)) as ->.
  { cbn [dispatch]. by rewrite Hk, Hl. }
  pose proof (onPillClick_pills k arg p) as Hpills.
  destruct (filterInnovations_frame (searchValue p) arg
              (setCategoryFilters
                 (alter activate k (deactivate <$> categoryFilters p)) p))
    as (Hstore & _ & _ & _ & _ & _ & _ & Hlisten & _).
  fold (onPillClick k arg p) in Hstore, Hlisten.
  set (p1 := settle (onPillClick k arg p)) in *.
  cbn [dispatch]. cbn [inputListener setSearchValue]. rewrite Hlisten.
  cbn [inputListener setCategoryFilters]. rewrite Hin.
  unfold onInput. apply filter_grid; [|done].
  cbn [searchValue categoryFilters allInnovations setSearchValue].
  rewrite Hpills, Hstore. cbn [allInnovations setCategoryFilters].
  unfold activePillCategory.
  rewrite (find_active_selectPill k _ pill Hk). cbn [dataCategory activate].
  by rewrite Hd.
Qed.

End PillFacts.

(** X11.  A click on a pill that has a listener leaves that pill as the
    only active one, and changes no pill's [data-category] or listeners.  A
    click where there is no pill, or on a pill without listener, changes
    nothing. *)
Theorem pill_click_moves_active (p : Page) (k : nat) :
  (forall pill, categoryFilters p !! k = Some pill -> clickListeners pill <> [] ->
     (forall j pill', categoryFilters (dispatch p (ClickPill k)) !! j = Some pill' ->
                      active pill' = bool_decide (j = k)) /\
     dataCategory <$> categoryFilters (dispatch p (ClickPill k))
       = dataCategory <$> categoryFilters p /\
     clickListeners <$> categoryFilters (dispatch p (ClickPill k))
       = clickListeners <$> categoryFilters p) /\
  (categoryFilters p !! k = None -> dispatch p (ClickPill k) = p) /\
  (forall pill, categoryFilters p !! k = Some pill -> clickListeners pill = [] ->
     dispatch p (ClickPill k) = p).
Proof.
  split; [|split].
  - intros pill Hk Hne. cbn [dispatch]. rewrite Hk.
    rewrite pill_listeners_pills by done. split.
    + intros j pill' Hj. by destruct (selectPill_lookup k j _ _ Hj) as (? & _ & _ & _ & ?).
    + apply selectPill_labels.
  - intros Hk. cbn [dispatch]. by rewrite Hk.
  - intros pill Hk Hl. cbn [dispatch]. by rewrite Hk, Hl.
Qed.

Lemma pill_click_moves_active_witness :
  dataCategory <$> categoryFilters
    (dispatch (run (Parsed (records threeRecords)) initialPage) (ClickPill 2))
  = dataCategory <$> categoryFilters (run (Parsed (records threeRecords)) initialPage).
Proof.
  apply (proj1 (pill_click_moves_active
                  (run (Parsed (records threeRecords)) initialPage) 2)
           (mkPill (Some "Medicine") false [Text "Medicine"])).
  - vm_compute. reflexivity.
  - discriminate.
Defined.

(** X12.  A click on a pill filters with the category its listener
    closed over; typing afterwards filters with the pill's [data-category]
    attribute, read as ["all"] when it is empty.  Either pass shows the
    records it keeps when all of them can be made cards.  For the pill built
    for records that have no [category] the listener's category is
    [undefined] and the attribute is the text [undefined]: the click puts no
    constraint on the category, typing afterwards asks for the category of
    that name. *)
Theorem pill_click_then_typing (k : nat) (arg : Value) (d text : string)
    (p : Page) (pill : Pill) :
  categoryFilters p !! k = Some pill ->
  dataCategory pill = Some d ->
  clickListeners pill = [arg] ->
  inputListener p = true ->
  (forall kept,
     filteredItems (searchValue p) arg (allInnovations p) = Some kept ->
     Forall cardable kept ->
     dashboard (dispatch p (ClickPill k)) = kept) /\
  (forall kept,
     filteredItems text (Text (if truthy d then d else "all")) (allInnovations p)
       = Some kept ->
     Forall cardable kept ->
     dashboard (dispatch (dispatch p (ClickPill k)) (Input text)) = kept).
Proof.
  intros Hk Hd Hl Hin. split.
  - intros kept. by apply click_grid with pill.
  - intros kept. by apply click_then_input_grid with arg pill.
Qed.

Lemma pill_click_then_typing_witness :
  dashboard (dispatch (run (Parsed (records [noSignificance; noCategory])) initialPage)
                      (ClickPill 2)) = [noSignificance; noCategory] /\
  dashboard (dispatch (dispatch (run (Parsed (records [noSignificance; noCategory]))
                                     initialPage)
                                (ClickPill 2)) (Input "a")) = [].
Proof.
  assert (categoryFilters (run (Parsed (records [noSignificance; noCategory]))
                               initialPage) !! 2 = Some (pillOf Absent)) as Hk
    by (vm_compute; reflexivity).
  assert (inputListener (run (Parsed (records [noSignificance; noCategory]))
                             initialPage) = true) as Hin
    by (vm_compute; reflexivity).
  destruct (pill_click_then_typing 2 Absent "undefined" "a"
              (run (Parsed (records [noSignificance; noCategory])) initialPage)
              (pillOf Absent) Hk eq_refl eq_refl Hin) as (Hclick & Htype).
  split.
  - apply Hclick; [vm_compute; reflexivity|].
    repeat constructor; by eexists.
  - apply Htype; [vm_compute; reflexivity | constructor].
Defined.

(** X13.  On a store of conforming records a category pill and the
    search field agree: the click shows the records [filtered] keeps for
    the current text and the pill's category, and typing afterwards shows
    the records it keeps for the new text and the same category. *)
Theorem category_pill_click_and_typing_agree (k : nat) (c text : string)
    (catalog : list Innovation) (p : Page) (pill : Pill) :
  allInnovations p = records (toItem <$> catalog) ->
  inputListener p = true ->
  categoryFilters p !! k = Some pill ->
  dataCategory pill = Some c ->
  clickListeners pill = [Text c] ->
  dashboard (dispatch p (ClickPill k))
    = toItem <$> filtered (searchValue p) c catalog /\
  dashboard (dispatch (dispatch p (ClickPill k)) (Input text))
    = toItem <$> filtered text c catalog.
Proof.
  intros Hstore Hin Hk Hd Hl. split.
  - apply click_grid with (Text c) pill; try done.
    + rewrite Hstore. apply filteredItems_toItem.
    + apply Forall_toItem_cardable.
  - apply click_then_input_grid with (Text c) c pill; try done.
    + rewrite Hstore, filteredItems_toItem. f_equal. f_equal.
      unfold truthy. destruct (String.eqb_spec c "") as [->|Hc]; simpl; [|done].
      unfold filtered. apply filter_ext. intros r. done.
    + apply Forall_toItem_cardable.
Qed.

Lemma category_pill_click_and_typing_agree_witness :
  dashboard (dispatch (run (Parsed (records threeRecords)) initialPage) (ClickPill 1))
    = toItem <$> filtered "" "Energy" threeCards /\
  dashboard (dispatch (dispatch (run (Parsed (records threeRecords)) initialPage)
                                (ClickPill 1))
                      (Input "bat"))
    = toItem <$> filtered "bat" "Energy" threeCards.
Proof.
  apply (category_pill_click_and_typing_agree 1 "Energy" "bat" threeCards
           (run (Parsed (records threeRecords)) initialPage)
           (mkPill (Some "Energy") false [Text "Energy"]));
    vm_compute; reflexivity.
Defined.

(** ** The image address *)

Section EncodeFacts.

Local Arguments String.append !_ _ / : assert.

Lemma list_ascii_app (s t : string) :
  String.list_ascii_of_string (s +:+ t)
  = String.list_ascii_of_string s ++ String.list_ascii_of_string t.
Proof. induction s as [|a s IH]; simpl; [done | by rewrite IH]. Qed.

Lemma urlSafeb_true (a : ascii) : urlSafeb a = true <-> urlSafe a.
Proof.
  unfold urlSafeb, urlSafe. rewrite orb_true_iff.
  by rewrite (Ascii.eqb_eq a "%").
Qed.

Lemma encodeUnit_safe (a : ascii) :
  forallb urlSafeb (String.list_ascii_of_string (encodeUnit a)) = true.
Proof. destruct a as [[] [] [] [] [] [] [] []]; reflexivity. Qed.

Lemma encodeUnit_unreserved (a : ascii) :
  unreserved a = true -> encodeUnit a = String a "".
Proof. intros Ha. unfold encodeUnit. by rewrite Ha. Qed.



Lemma encodeURIComponent_urlSafe (s : string) :
  Forall urlSafe (String.list_ascii_of_string (encodeURIComponent s)).
Proof.
  induction s as [|a s IH]; cbn [encodeURIComponent]; [constructor|].
  rewrite list_ascii_app. apply Forall_app. split; [|exact IH].
  apply Forall_forall. intros x Hx. apply urlSafeb_true.
  pose proof (encodeUnit_safe a) as Hsafe.
  rewrite forallb_forall in Hsafe. apply Hsafe. by apply list_elem_of_In.
Qed.

Lemma urlSafe_plain (a : ascii) :
  urlSafe a -> a ∉ [" "%char; ascii_of_N 34; "<"%char; ">"%char].
Proof.
  intros [Ha | ->] Hin.
  - repeat (apply elem_of_cons in Hin as [-> | Hin]; [discriminate Ha|]).
    by apply elem_of_nil in Hin.
  - repeat (apply elem_of_cons in Hin as [Hin | Hin]; [discriminate Hin|]).
    by apply elem_of_nil in Hin.
Qed.

(** A code unit below 256 is no surrogate, and is encoded as a code point
    the way [encodeUnit] does it. *)
Lemma encodeCodePoint_unit (a : ascii) :
  isHighSurrogate (N_of_ascii a) = false /\
  isLowSurrogate (N_of_ascii a) = false /\
  encodeCodePoint (N_of_ascii a) = encodeUnit a.
Proof. destruct a as [[] [] [] [] [] [] [] []]; repeat split; reflexivity. Qed.

Lemma encodeUnits_codeUnits (s : string) :
  encodeUnits (codeUnits s) = Some (encodeURIComponent s).
Proof.
  induction s as [|a s IH]; [done|].
  change (codeUnits (String a s)) with (N_of_ascii a :: codeUnits s).
  destruct (encodeCodePoint_unit a) as (Hh & Hl & He).
  cbn [encodeUnits encodeURIComponent]. by rewrite Hh, Hl, IH, He.
Qed.

(** Two, three and four octets: U+00E9, U+20AC, and U+1F600 as the
    surrogate pair D83D DE00; a low surrogate that comes first is alone. *)
Example encodeUnits_examples :
  encodeUnits [233%N] = Some "%C3%A9" /\
  encodeUnits [8364%N] = Some "%E2%82%AC" /\
  encodeUnits [104%N; 55357%N; 56832%N] = Some "h%F0%9F%98%80" /\
  encodeUnits [56832%N; 55357%N] = None /\
  encodedQuery (imageQueryProp loneSurrogate) = None.
Proof. repeat split; reflexivity. Qed.

End EncodeFacts.

(** X18.  On a string of code units below 256 the encoding of the image
    query never throws and consists of unreserved characters and [%] only,
    whatever the query is: it holds no space, double quote or angle bracket
    (the apostrophe is unreserved and stays).  A query of unreserved
    characters is left as it is. *)
Theorem encodeURIComponent_safe (s : string) :
  encodeUnits (codeUnits s) = Some (encodeURIComponent s) /\
  Forall urlSafe (String.list_ascii_of_string (encodeURIComponent s)) /\
  (forall a, a ∈ String.list_ascii_of_string (encodeURIComponent s) ->
             a ∉ [" "%char; ascii_of_N 34; "<"%char; ">"%char]) /\
  (Forall (fun a => unreserved a = true) (String.list_ascii_of_string s) ->
   encodeURIComponent s = s).
Proof.
  split; [apply encodeUnits_codeUnits|].
  split; [apply encodeURIComponent_urlSafe|]. split.
  - intros a Ha. apply urlSafe_plain.
    pose proof (encodeURIComponent_urlSafe s) as Hsafe.
    rewrite Forall_forall in Hsafe. by apply Hsafe.
  - induction s as [|a s IH]; [done|]. simpl String.list_ascii_of_string.
    intros [Ha Hs]%Forall_cons. cbn [encodeURIComponent].
    by rewrite (encodeUnit_unreserved a Ha), (IH Hs).
Qed.

Lemma encodeURIComponent_safe_witness :
  encodeURIComponent "it's_a-(solar)*panel" = "it's_a-(solar)*panel".
Proof.
  apply (proj2 (proj2 (proj2 (encodeURIComponent_safe "it's_a-(solar)*panel")))).
  repeat constructor.
Defined.



(** ** The normalized query *)

Section NormalizeFacts.

Lemma trimStart_fixed (s : string) :
  (forall a t, s = String a t -> isWhiteSpace a = false) -> trimStart s = s.
Proof.
  destruct s as [|a t]; simpl; [done|]. intros H. by rewrite (H a t eq_refl).
Qed.

Lemma trimEnd_idemp (s : string) : trimEnd (trimEnd s) = trimEnd s.
Proof.
  induction s as [|a s IH]; simpl; [done|].
  destruct (trimEnd s) as [|b t] eqn:Ht.
  - destruct (isWhiteSpace a) eqn:Ha; simpl; [done | by rewrite Ha].
  - simpl in *. by rewrite IH.
Qed.

Lemma trim_idemp (s : string) : trim (trim s) = trim s.
Proof.
  unfold trim at 1. rewrite trimStart_fixed.
  - apply trimEnd_idemp.
  - intros a t. apply trim_head.
Qed.

End NormalizeFacts.

(** X20.  The normalized query is in lower case and has no white space at
    either end, and normalizing it again changes nothing. *)
Theorem normalizedQuery_normal (q : string) :
  normalizedQuery (normalizedQuery q) = normalizedQuery q /\
  toLowerCase (normalizedQuery q) = normalizedQuery q /\
  (forall a t, normalizedQuery q = String a t -> isWhiteSpace a = false) /\
  (forall t a, normalizedQuery q = t +:+ String a "" -> isWhiteSpace a = false).
Proof.
  unfold normalizedQuery.
  assert (toLowerCase (trim (toLowerCase q)) = trim (toLowerCase q)) as Hlow
    by (by rewrite <- trim_toLowerCase, toLowerCase_idemp).
  split; [by rewrite Hlow, trim_idemp|]. split; [done|].
  split; [intros a t; apply trim_head | intros t a; apply trim_last].
Qed.

Lemma normalizedQuery_normal_witness : isWhiteSpace "c" = false.
Proof.
  apply (proj1 (proj2 (proj2 (normalizedQuery_normal "  CRISPR ")))
           "c"%char "rispr").
  reflexivity.
Defined.

(** ** Building the pills *)

Section LabelFacts.

Lemma listenOnAllPill_labels (pills : list Pill) :
  dataCategory <$> listenOnAllPill pills = dataCategory <$> pills.
Proof.
  induction pills as [|pill pills IH]; [done|]. cbn [listenOnAllPill].
  destruct (isAllPill pill); [done|]. by rewrite !fmap_cons, IH.
Qed.

Lemma filter_isAllPill_labels (pills : list Pill) :
  dataCategory <$> List.filter isAllPill pills
  = List.filter isAllLabel (dataCategory <$> pills).
Proof.
  induction pills as [|pill pills IH]; [done|].
  rewrite fmap_cons. cbn [List.filter].
  change (isAllLabel (dataCategory pill)) with (isAllPill pill).
  destruct (isAllPill pill); by rewrite ?fmap_cons, IH.
Qed.

Lemma filter_all_false (labels : list (option string)) :
  Some "all" ∉ labels -> List.filter isAllLabel labels = [].
Proof.
  induction labels as [|d labels IH]; [done|].
  rewrite not_elem_of_cons. intros [Hd Hl]. cbn [List.filter].
  unfold isAllLabel at 1. rewrite bool_decide_eq_false_2 by done. auto.
Qed.

Lemma filter_isAllLabel_idemp (labels : list (option string)) :
  List.filter isAllLabel (List.filter isAllLabel labels)
  = List.filter isAllLabel labels.
Proof.
  induction labels as [|d labels IH]; [done|]. cbn [List.filter].
  destruct (isAllLabel d) eqn:Hd; [|done].
  cbn [List.filter]. by rewrite Hd, IH.
Qed.

(** The attribute of a new pill is the printed category. *)
Lemma pillOf_labels (cats : list Value) :
  Forall (fun v => is_Some (print v)) cats ->
  dataCategory <$> (pillOf <$> cats) = print <$> cats.
Proof.
  induction 1 as [|v cats [s Hs] _ IH]; [done|].
  rewrite !fmap_cons, IH. unfold pillOf, sortKey. by rewrite Hs.
Qed.

Lemma records_inj (a b : list Item) : records a = records b -> a = b.
Proof.
  unfold records. intros [= H]. revert b H.
  induction a as [|x a IH]; intros [|y b] H; try done.
  injection H as -> H. f_equal. by apply IH.
Qed.

End LabelFacts.

(** X14.  When [setupFilters] completes it has kept, of the pills already
    there, exactly those whose [data-category] is ["all"], in their order,
    and appended one pill per distinct category of the records, labelled
    with the printed category.  Unless a category prints as ["all"],
    building the pills a second time from the same records completes too and
    gives the same row of pills: the pills of the first pass are cleared. *)
Theorem setupFilters_rebuilds (data : Stored) (p p' : Page) :
  setupFilters data p = Normal p' ->
  exists items sorted,
    data = records items /\
    sortValues (distinct (categoryProp <$> items)) = Some sorted /\
    dataCategory <$> categoryFilters p'
    = List.filter (fun d => bool_decide (d = Some "all"))
                  (dataCategory <$> categoryFilters p)
      ++ (print <$> sorted) /\
    (Forall (fun i => print (categoryProp i) <> Some "all") items ->
     exists p'',
       setupFilters data p' = Normal p'' /\
       dataCategory <$> categoryFilters p''
       = dataCategory <$> categoryFilters p').
Proof.
  intros Hsetup.
  destruct (proj1 (setupFilters_Normal data p p') Hsetup)
    as (items & sorted & Hdata & Hprint & Hsort & Hp').
  exists items, sorted.
  assert (Forall (fun v => is_Some (print v)) sorted) as Hsorted.
  { apply Forall_forall. intros v Hv.
    rewrite (elem_of_sortValues _ _ _ Hsort), elem_of_distinct in Hv.
    apply list_elem_of_fmap in Hv as (i & -> & Hi).
    rewrite Forall_forall in Hprint. by apply Hprint. }
  assert (forall q, dataCategory <$> listenOnAllPill
                      (List.filter isAllPill (categoryFilters q)
                       ++ (pillOf <$> sorted))
                    = List.filter isAllLabel (dataCategory <$> categoryFilters q)
                      ++ (print <$> sorted)) as Hlabels.
  { intros q.
    by rewrite listenOnAllPill_labels, fmap_app, filter_isAllPill_labels,
               pillOf_labels. }
  assert (dataCategory <$> categoryFilters p'
          = List.filter isAllLabel (dataCategory <$> categoryFilters p)
            ++ (print <$> sorted)) as Hfirst.
  { rewrite Hp'. cbn [categoryFilters setCategoryFilters]. apply Hlabels. }
  split; [done|]. split; [done|]. split; [exact Hfirst|].
  intros Hall.
  exists (setCategoryFilters
            (listenOnAllPill (List.filter isAllPill (categoryFilters p')
                              ++ (pillOf <$> sorted))) p').
  split.
  - apply setupFilters_Normal. by exists items, sorted.
  - cbn [categoryFilters setCategoryFilters]. rewrite Hlabels, Hfirst.
    assert (List.filter isAllLabel (print <$> sorted) = []) as Hfresh.
    { apply filter_all_false.
      intros (v & Heq & Hv)%list_elem_of_fmap.
      rewrite (elem_of_sortValues _ _ _ Hsort), elem_of_distinct in Hv.
      apply list_elem_of_fmap in Hv as (i & -> & Hi).
      rewrite Forall_forall in Hall. by apply (Hall i Hi). }
    by rewrite List.filter_app, filter_isAllLabel_idemp, Hfresh, app_nil_r.
Qed.

Lemma setupFilters_rebuilds_witness :
  exists items sorted,
    records threeRecords = records items /\
    sortValues (distinct (categoryProp <$> items)) = Some sorted /\
    dataCategory <$> categoryFilters
      (settle (setupFilters (records threeRecords) initialPage))
    = List.filter (fun d => bool_decide (d = Some "all"))
                  (dataCategory <$> categoryFilters initialPage)
      ++ (print <$> sorted) /\
    (Forall (fun i => print (categoryProp i) <> Some "all") items ->
     exists p'',
       setupFilters (records threeRecords)
         (settle (setupFilters (records threeRecords) initialPage)) = Normal p'' /\
       dataCategory <$> categoryFilters p''
       = dataCategory <$> categoryFilters
           (settle (setupFilters (records threeRecords) initialPage))).
Proof.
  apply (setupFilters_rebuilds (records threeRecords) initialPage
           (settle (setupFilters (records threeRecords) initialPage))).
  vm_compute. reflexivity.
Defined.

(** X15.  From the initial page, a response of conforming records, their
    strings of code units below 256, leaves the permanent pill, active and
    now with a listener for ["all"], followed by one inactive pill per
    category in sorted order, each with one listener for its category; the
    grid shows every record in the order of the response, the spotlight the
    first, and both listeners are registered. *)
Theorem run_conforming_page (catalog : list Innovation) :
  signalsError (Parsed (records (toItem <$> catalog))) initialPage = false /\
  categoryFilters (run (Parsed (records (toItem <$> catalog))) initialPage)
  = mkPill (Some "all") true [Text "all"]
    :: ((fun c => mkPill (Some c) false [Text c]) <$> categories catalog) /\
  dashboard (run (Parsed (records (toItem <$> catalog))) initialPage)
    = toItem <$> catalog /\
  spotlightContainer (run (Parsed (records (toItem <$> catalog))) initialPage)
    = toItem <$> head catalog /\
  inputListener (run (Parsed (records (toItem <$> catalog))) initialPage) = true /\
  keydownListener (run (Parsed (records (toItem <$> catalog))) initialPage) = true.
Proof.
  assert (startsUp (records (toItem <$> catalog))) as Hstart.
  { exists (toItem <$> catalog). split; [done|].
    split; [apply Forall_toItem_cardable|].
    intros first Hfirst. destruct catalog as [|r catalog]; [done|].
    injection Hfirst as <-. apply toItem_spotlightable. }
  destruct (tryBlock_startsUp _ initialPage Hstart) as [p' Htry].
  unfold signalsError. rewrite run_settle, Htry. split; [done|].
  destruct (tryBlock_Normal _ _ _ Htry)
    as (items & sorted & Hd & _ & _ & Hsort & _ & Hgrid & Hspot & Hpills
        & Hin & Hkey).
  apply records_inj in Hd. subst items.
  rewrite sortValues_categories in Hsort. injection Hsort as <-.
  split; [|split; [done|split; [|done]]].
  - rewrite Hpills. cbn. by rewrite <- list_fmap_compose.
  - rewrite Hspot. by destruct catalog.
Qed.

(** X16.  [run] never writes the "no results" element, the text of the
    search field or the focus, whatever the response and however it ends.
    After an empty array the grid is empty and the element is as the markup
    has it; the first input event then shows it. *)
Theorem run_leaves_no_results (a : Acquisition) (p : Page) :
  noResultsMessage (run a p) = noResultsMessage p /\
  searchValue (run a p) = searchValue p /\
  activeElement (run a p) = activeElement p /\
  dashboard (run (Parsed (ArrayOf [])) p) = [] /\
  (forall text,
     display (noResultsMessage (dispatch (run (Parsed (ArrayOf [])) p) (Input text)))
     = DisplayBlock).
Proof.
  assert (noResultsMessage (run a p) = noResultsMessage p /\
          searchValue (run a p) = searchValue p /\
          activeElement (run a p) = activeElement p) as (H1 & H2 & H3).
  { destruct a as [| |data]; [done | done |].
    rewrite run_settle, tryBlock_parsed.
    pose proof (afterLoader_core
                  (setLoader (withDisplay DisplayNone (loader p))
                             (setAllInnovations data p)))
      as (_ & _ & _ & Hn & Hs & Ha).
    by destruct (afterLoader _). }
  repeat (split; [done|]). intros text. reflexivity.
Qed.

(** ** A page on which nothing listens *)

Section InertFacts.

Lemma sameButInput_refl (p : Page) : sameButInput p p.
Proof. repeat split. Qed.

Lemma sameButInput_trans (p1 p2 p3 : Page) :
  sameButInput p1 p2 -> sameButInput p2 p3 -> sameButInput p1 p3.
Proof.
  unfold sameButInput. intros H12 H23.
  destruct_and!. repeat split; congruence.
Qed.

Lemma dispatch_inert (p : Page) (e : Event) :
  inert p -> sameButInput p (dispatch p e) /\ inert (dispatch p e).
Proof.
  intros (Hin & Hkey & Hgrid & Hpills).
  destruct e as [text|k|k|k|f]; cbn [dispatch].
  - cbn [inputListener setSearchValue]. rewrite Hin.
    split; [repeat split | by repeat split].
  - destruct (categoryFilters p !! k) as [pill|] eqn:Hk.
    + rewrite Forall_forall in Hpills.
      rewrite (Hpills pill) by (by eapply list_elem_of_lookup_2).
      split; [repeat split | by repeat split; try apply Forall_forall].
    + split; [repeat split | by repeat split].
  - rewrite Hgrid. split; [repeat split | by repeat split].
  - rewrite Hkey. split; [repeat split | by repeat split].
  - split; [repeat split | by repeat split].
Qed.

Lemma events_inert (p : Page) (events : list Event) :
  inert p -> sameButInput p (foldl dispatch p events).
Proof.
  revert p. induction events as [|e events IH]; intros p Hp; simpl.
  - apply sameButInput_refl.
  - destruct (dispatch_inert p e Hp) as [Hsame Hinert].
    eapply sameButInput_trans; [exact Hsame | by apply IH].
Qed.

End InertFacts.

(** X17.  After a [run] that failed in the request or in [JSON.parse],
    on a page where nothing listened, nothing listens: whatever the user
    types, clicks or presses, the store, the loader, the error text, the "no
    results" element, the grid, the pills and the spotlight stay as [run]
    left them. *)
Theorem failed_page_is_inert (a : Acquisition) (p : Page) (events : list Event) :
  inert p ->
  a = ServiceFailure \/ a = NotJson ->
  sameButInput (run a p) (foldl dispatch (run a p) events).
Proof.
  intros Hp Ha. apply events_inert.
  destruct Hp as (Hin & Hkey & Hgrid & Hpills).
  by destruct Ha as [-> | ->].
Qed.

Lemma failed_page_is_inert_witness :
  sameButInput (run NotJson initialPage)
    (session NotJson [Input "laser"; ClickPill 0; KeyDown "/"; ClickCard 0]).
Proof.
  apply (failed_page_is_inert NotJson initialPage
           [Input "laser"; ClickPill 0; KeyDown "/"; ClickCard 0]).
  - repeat split. repeat constructor.
  - right. reflexivity.
Defined.

(** ** A record that cannot be made a card *)

Section RenderFacts.

(** The loop of [renderGrid] stops at the first record that cannot be made
    a card. *)
Lemma appendCards_stop (front rest : list Item) (bad : Item) (p : Page) :
  Forall cardable front -> ~ cardable bad ->
  appendCards (Some <$> (front ++ bad :: rest)) p
  = Thrown (setDashboard (dashboard p ++ front) p).
Proof.
  intros Hfront Hbad. revert p.
  induction Hfront as [|i front Hi _ IH]; intros p.
  - cbn [app fmap list_fmap appendCards].
    assert (createCard (Some bad) = None) as ->.
    { apply createCard_None. right. by exists bad. }
    rewrite app_nil_r. by destruct p.
  - cbn [app]. rewrite fmap_cons. cbn [appendCards].
    rewrite (createCard_cardable i Hi), IH.
    cbn [dashboard setDashboard]. by rewrite <- app_assoc.
Qed.

End RenderFacts.

(** X21.  When every category can be printed but some record cannot be
    made a card, as one whose [imageQuery] holds a lone surrogate, [run]
    ends in the [catch] block after the store was written and the pills were
    built: the grid holds the cards of the records before that one, the
    spotlight is untouched, neither the input nor the keydown listener is
    registered, and the error element shows the fixed message. *)
Theorem run_fails_in_render (front rest : list Item) (bad : Item) (p : Page) :
  Forall cardable front -> ~ cardable bad ->
  is_Some (print (categoryProp bad)) ->
  Forall (fun i => is_Some (print (categoryProp i))) rest ->
  signalsError (Parsed (records (front ++ bad :: rest))) p = true /\
  allInnovations (run (Parsed (records (front ++ bad :: rest))) p)
    = records (front ++ bad :: rest) /\
  dashboard (run (Parsed (records (front ++ bad :: rest))) p) = front /\
  spotlightContainer (run (Parsed (records (front ++ bad :: rest))) p)
    = spotlightContainer p /\
  inputListener (run (Parsed (records (front ++ bad :: rest))) p)
    = inputListener p /\
  keydownListener (run (Parsed (records (front ++ bad :: rest))) p)
    = keydownListener p /\
  errorMessage (run (Parsed (records (front ++ bad :: rest))) p)
    = mkElement DisplayBlock fixedMessage /\
  exists p',
    setupFilters (records (front ++ bad :: rest)) p = Normal p' /\
    categoryFilters (run (Parsed (records (front ++ bad :: rest))) p)
      = categoryFilters p'.
Proof.
  intros Hfront Hbad Hcat Hrest.
  set (items := front ++ bad :: rest).
  assert (Forall (fun i => is_Some (print (categoryProp i))) items) as Hprint.
  { apply Forall_app. split.
    - eapply Forall_impl; [exact Hfront|]. intros i. apply cardable_category.
    - by apply Forall_cons. }
  set (p0 := setLoader (withDisplay DisplayNone (loader p))
                       (setAllInnovations (records items) p)).
  destruct (setupFilters_printable items p0 Hprint) as [p1 H1].
  destruct (proj1 (setupFilters_Normal _ _ _) H1)
    as (items' & sorted & Hd & _ & Hsort & Hp1).
  apply records_inj in Hd. subst items'.
  assert (tryBlock (Parsed (records items)) p
          = Thrown (setDashboard front p1)) as Htry.
  { rewrite tryBlock_parsed. fold p0. unfold afterLoader.
    change (allInnovations p0) with (records items). rewrite H1.
    cbn [andThen]. rewrite Hp1. cbn [allInnovations setCategoryFilters].
    change (allInnovations p0) with (records items).
    unfold renderGrid, records, items.
    rewrite appendCards_stop by done. done. }
  unfold signalsError. rewrite run_settle, Htry. rewrite Hp1.
  repeat (split; [done|]).
  exists (setCategoryFilters
            (listenOnAllPill (List.filter isAllPill (categoryFilters p)
                              ++ (pillOf <$> sorted))) p).
  split; [|done]. apply setupFilters_Normal. by exists items, sorted.
Qed.

Lemma run_fails_in_render_witness :
  signalsError (Parsed (records [noSignificance; loneSurrogate; noCategory]))
               initialPage = true /\
  dashboard (run (Parsed (records [noSignificance; loneSurrogate; noCategory]))
                 initialPage) = [noSignificance].
Proof.
  destruct (run_fails_in_render [noSignificance] [noCategory] loneSurrogate
              initialPage) as (H1 & _ & H2 & _).
  - repeat constructor; by eexists.
  - intros ([x Hx] & _). discriminate Hx.
  - by eexists.
  - repeat constructor. by eexists.
  - split; [exact H1 | exact H2].
Defined.
